(** * voice_denoiser: the denoising engine, embedded and verified

    Shallow embedding of [app/core/audio_io.py], [app/core/stft_utils.py] and
    [app/core/denoiser.py].

    - Samples, cutoffs and spectral magnitudes are Python/NumPy floats.  The
      arithmetic the code performs on them is captured by the [Scalar]
      interface, with two instances: [Qc] (exact rational arithmetic, the
      reference semantics in which the general theorems are proved) and
      [float] (IEEE 754 binary64, which is what NumPy computes with; used to
      evaluate the element-wise kernels bit for bit).
    - SciPy, librosa, noisereduce and [np.fft] are not part of the
      repository: they are an injected [Library] of uninterpreted operations.
      Every call into them is recorded in a trace, so that "this stage ran",
      "this stage was skipped" and "nothing ran before the error" are
      observable.
    - 2-D NumPy arrays carry their shape and are combined with NumPy's
      broadcasting rule, which raises on incompatible shapes. *)

From Stdlib Require Import ZArith QArith Qcanon Lqa List String Bool Lia.
From Stdlib Require Import PrimFloat Uint63 FloatOps SpecFloat.
Import ListNotations.

Set Implicit Arguments.
Local Open Scope string_scope.
Local Open Scope list_scope.
Local Open Scope Z_scope.

(* ================================================================== *)
(** ** Scalars *)

(** The operations the engine applies to a Python [float] or to one element
    of a NumPy float array. *)
Class Scalar (A : Type) := {
  of_Q : Q -> A;                 (* a literal such as [0.9] or [1e-10] *)
  s_add : A -> A -> A;
  s_sub : A -> A -> A;
  s_mul : A -> A -> A;
  s_div : A -> A -> A;
  s_ltb : A -> A -> bool;        (* [a < b] *)
  s_leb : A -> A -> bool;        (* [a <= b] *)
  np_maximum : A -> A -> A;      (* [np.maximum(a, b)] on one element *)
  np_minimum : A -> A -> A;      (* [np.minimum(a, b)] on one element *)
  np_absolute : A -> A;          (* [np.abs(a)] on one real element *)
  py_int : A -> Z                (* [int(a)]: truncation toward zero *)
}.

Declare Scope scalar_scope.
Delimit Scope scalar_scope with S.
Infix "+" := s_add : scalar_scope.
Infix "-" := s_sub : scalar_scope.
Infix "*" := s_mul : scalar_scope.
Infix "/" := s_div : scalar_scope.
Infix "<?" := s_ltb : scalar_scope.
Infix "<=?" := s_leb : scalar_scope.

Definition of_Z {A} `{Scalar A} (z : Z) : A := of_Q (inject_Z z).

(** *** Exact arithmetic: canonical rationals *)

Definition Qc_ltb (x y : Qc) : bool :=
  match (x ?= y)%Qc with Lt => true | _ => false end.

Definition Qc_leb (x y : Qc) : bool :=
  match (x ?= y)%Qc with Gt => false | _ => true end.

Definition Qc_trunc (x : Qc) : Z := Z.quot (Qnum x) (Zpos (Qden x)).

#[export] Instance Qc_Scalar : Scalar Qc := {
  of_Q := Q2Qc;
  s_add := Qcplus;
  s_sub := Qcminus;
  s_mul := Qcmult;
  s_div := Qcdiv;
  s_ltb := Qc_ltb;
  s_leb := Qc_leb;
  np_maximum := fun a b => if Qc_ltb a b then b else a;
  np_minimum := fun a b => if Qc_ltb b a then b else a;
  np_absolute := fun a => if Qc_ltb a (Q2Qc 0) then Qcopp a else a;
  py_int := Qc_trunc
}.

(** *** IEEE 754 binary64 *)

Definition float_of_Z (z : Z) : float :=
  if z <? 0 then PrimFloat.opp (PrimFloat.of_uint63 (Uint63.of_Z (- z)))
  else PrimFloat.of_uint63 (Uint63.of_Z z).

(** A decimal literal is the correctly rounded quotient of two integers that
    binary64 holds exactly (true of every literal of the engine). *)
Definition float_of_Q (q : Q) : float :=
  PrimFloat.div (float_of_Z (Qnum q)) (float_of_Z (Zpos (Qden q))).

Definition float_trunc (x : float) : Z :=
  match Prim2SF x with
  | S754_finite s m e =>
      let v := if 0 <=? e then Zpos m * 2 ^ e else Zpos m / 2 ^ (- e) in
      if s then - v else v
  | _ => 0
  end.

#[export] Instance float_Scalar : Scalar float := {
  of_Q := float_of_Q;
  s_add := PrimFloat.add;
  s_sub := PrimFloat.sub;
  s_mul := PrimFloat.mul;
  s_div := PrimFloat.div;
  s_ltb := PrimFloat.ltb;
  s_leb := PrimFloat.leb;
  np_maximum := fun a b =>
    if PrimFloat.is_nan a then a else if PrimFloat.is_nan b then b
    else if PrimFloat.ltb a b then b else a;
  np_minimum := fun a b =>
    if PrimFloat.is_nan a then a else if PrimFloat.is_nan b then b
    else if PrimFloat.ltb b a then b else a;
  np_absolute := PrimFloat.abs;
  py_int := float_trunc
}.

(** Python's builtin [min(a, b)]: [b] only when [b < a]. *)
Definition py_min {A} `{Scalar A} (a b : A) : A :=
  if (b <? a)%S then b else a.

(** [np.clip(x, lo, hi)] on one element. *)
Definition np_clip {A} `{Scalar A} (lo hi x : A) : A :=
  np_minimum (np_maximum x lo) hi.

(** [np.sum] of a 1-D array. *)
Definition np_sum {A} `{Scalar A} (l : list A) : A :=
  fold_left s_add l (of_Z 0).

(** [np.mean] of a 1-D array.  On an empty array NumPy answers [nan], which
    exact arithmetic does not have: the theorems that go through [np_mean]
    are stated for a non-empty axis. *)
Definition np_mean {A} `{Scalar A} (l : list A) : A :=
  (np_sum l / of_Z (Z.of_nat (List.length l)))%S.

(** A float division as an event.  Dividing by zero gives no number:
    Python raises [ZeroDivisionError], NumPy answers [inf] or [nan] with a
    RuntimeWarning.  [None] stands for that. *)
Definition is_zero {A} `{Scalar A} (a : A) : bool :=
  negb (a <? of_Z 0)%S && negb (of_Z 0 <? a)%S.

Definition checked_div {A} `{Scalar A} (a b : A) : option A :=
  if is_zero b then None else Some (a / b)%S.

(** [np.max] of a non-empty 1-D array, first element given apart. *)
Definition np_max {A} `{Scalar A} (x : A) (l : list A) : A :=
  fold_left np_maximum l x.

(* ================================================================== *)
(** ** NumPy arrays *)

(** A 2-D array: its shape [(rows, cols)] and its elements. *)
Record matrix (T : Type) : Type := mkMatrix {
  rows : nat;
  cols : nat;
  item : nat -> nat -> T
}.

(** A 1-D array: its shape [(size,)] and its elements. *)
Record vector (T : Type) : Type := mkVector {
  size : nat;
  elem : nat -> T
}.

(** The arrays that reach the arithmetic of the engine are 1-D or 2-D. *)
Inductive ndarray (T : Type) : Type :=
| Arr1 (v : vector T)
| Arr2 (m : matrix T).

Arguments Arr1 {T} v.
Arguments Arr2 {T} m.

(** [a.shape] and [a.ndim]. *)
Definition shape {T} (a : ndarray T) : list nat :=
  match a with
  | Arr1 v => [size v]
  | Arr2 m => [rows m; cols m]
  end.

Definition ndim {T} (a : ndarray T) : nat := List.length (shape a).

(** Broadcasting prepends a unit axis to a 1-D operand. *)
Definition as_matrix {T} (a : ndarray T) : matrix T :=
  match a with
  | Arr1 v => mkMatrix 1 (size v) (fun _ j => elem v j)
  | Arr2 m => m
  end.

(** One axis of NumPy's broadcasting rule: equal extents, or one of them 1. *)
Definition broadcast_dim (m n : nat) : option nat :=
  if Nat.eqb m n then Some m
  else if Nat.eqb m 1 then Some n
  else if Nat.eqb n 1 then Some m
  else None.

Definition broadcast_index (extent i : nat) : nat :=
  if Nat.eqb extent 1 then 0%nat else i.

(** An element-wise binary operation on two 2-D operands; [None] is NumPy's
    "operands could not be broadcast together". *)
Definition broadcast {T U V} (op : T -> U -> V) (a : matrix T) (b : matrix U)
  : option (matrix V) :=
  match broadcast_dim (rows a) (rows b), broadcast_dim (cols a) (cols b) with
  | Some r, Some c =>
      Some (mkMatrix r c (fun i j =>
              op (item a (broadcast_index (rows a) i) (broadcast_index (cols a) j))
                 (item b (broadcast_index (rows b) i) (broadcast_index (cols b) j))))
  | _, _ => None
  end.

(** An element-wise unary operation (also: an operation with a scalar). *)
Definition mmap {T U} (f : T -> U) (a : matrix T) : matrix U :=
  mkMatrix (rows a) (cols a) (fun i j => f (item a i j)).

Definition nd_map {T U} (f : T -> U) (a : ndarray T) : ndarray U :=
  match a with
  | Arr1 v => Arr1 (mkVector (size v) (fun j => f (elem v j)))
  | Arr2 m => Arr2 (mmap f m)
  end.

(** Row [i] of a 2-D array, as a list over the time frames. *)
Definition row_list {T} (a : matrix T) (i : nat) : list T :=
  map (item a i) (seq 0 (cols a)).

(** [np.mean(a, axis=1, keepdims=True)]: a column, shape [(rows, 1)]. *)
Definition mean_axis1_keepdims {A} `{Scalar A} (a : matrix A) : ndarray A :=
  Arr2 (mkMatrix (rows a) 1 (fun i _ => np_mean (row_list a i))).

(** [np.mean(a, axis=1)]: 1-D, shape [(rows,)]. *)
Definition mean_axis1 {A} `{Scalar A} (a : matrix A) : vector A :=
  mkVector (rows a) (fun i => np_mean (row_list a i)).

(** Column [j] of a 2-D array, as a list over the rows. *)
Definition col_list {T} (a : matrix T) (j : nat) : list T :=
  map (fun i => item a i j) (seq 0 (rows a)).

(** [np.mean(a, axis=0)]: 1-D, shape [(cols,)]. *)
Definition mean_axis0 {A} `{Scalar A} (a : matrix A) : vector A :=
  mkVector (cols a) (fun j => np_mean (col_list a j)).

(** The stop index of the Python slice [[:k]] on an axis of extent [n]. *)
Definition slice_stop (k : Z) (n : nat) : nat :=
  if k <? 0 then Z.to_nat (Z.max 0 (Z.of_nat n + k))
  else Nat.min (Z.to_nat k) n.

(** [l[:k]] on a 1-D buffer. *)
Definition py_slice_to {T} (k : Z) (l : list T) : list T :=
  firstn (slice_stop k (List.length l)) l.

(** [a[:, :k]]. *)
Definition slice_cols {T} (k : Z) (a : matrix T) : matrix T :=
  mkMatrix (rows a) (slice_stop k (cols a)) (item a).

(** [v[:, np.newaxis]] on a 1-D array: a column. *)
Definition newaxis_col {T} (v : vector T) : matrix T :=
  mkMatrix (size v) 1 (fun i _ => elem v i).

(** A 2-D array given by its rows (for concrete inputs). *)
Definition of_rows {T} (d : T) (l : list (list T)) : matrix T :=
  mkMatrix (List.length l) (List.length (hd [] l))
           (fun i j => nth j (nth i l []) d).

(* ================================================================== *)
(** ** Errors, external calls and the call trace *)

(** What a run may print when [verbose] is set. *)
Inductive output_line (A : Type) : Type :=
| InitBanner (default_method : string)
| NoiseLevelLine (noise_level : A)
| DoneLine (method : string).

(** Calls that leave the repository, with the arguments that identify them. *)
Inductive call (A : Type) : Type :=
| CallLoad
| CallResample (orig_sr target_sr : Z)
| CallTrim (top_db frame_length hop_length : Z)
| CallButter (order : Z) (low high : A)
| CallIirnotch (w0 Q : A)
| CallFiltfilt
| CallStft (n_fft hop_length : Z)
| CallIstft (hop_length : Z) (length : option nat)
| CallFft
| CallReduceNoise (sr : Z) (stationary : bool) (prop_decrease : A)
                  (n_fft hop_length : Z)
| Print (line : output_line A).

(** The exceptions a run may end with.  [InvalidBand] is the [ValueError]
    of [_bandpass_filter], whose message holds the two clamped cutoffs;
    [UnknownMethod] is the [ValueError] of [denoise]; [UnexpectedKeyword] is
    Python's [TypeError] for a keyword a method does not take;
    [ZeroDivisionError] is Python's, for a float divided by a zero [int];
    [BroadcastError] is NumPy's shape mismatch; [LoadError] is the
    [ValueError] of [load_audio], around what went wrong; [LibraryError] is
    whatever an external routine raised. *)
Inductive load_failure (E : Type) : Type :=
| FileNotFound                  (* the [FileNotFoundError] of [load_audio] *)
| UnsupportedFormat             (* its [ValueError] for the suffix *)
| Undecodable (e : E).          (* what [librosa.load] raised *)

Inductive error (A E : Type) : Type :=
| InvalidBand (lowcut highcut : A)
| UnknownMethod (method : string)
| UnexpectedKeyword
| ZeroDivisionError
| BroadcastError
| LoadError (cause : load_failure E)
| LibraryError (e : E).

Arguments FileNotFound {E}.
Arguments UnsupportedFormat {E}.
Arguments Undecodable {E} e.

Arguments InvalidBand {A E} lowcut highcut.
Arguments UnexpectedKeyword {A E}.
Arguments BroadcastError {A E}.
Arguments ZeroDivisionError {A E}.
Arguments UnknownMethod {A E} method.
Arguments LoadError {A E} cause.
Arguments LibraryError {A E} e.
Arguments CallLoad {A}.
Arguments CallFiltfilt {A}.
Arguments CallFft {A}.
Arguments CallResample {A} orig_sr target_sr.
Arguments CallTrim {A} top_db frame_length hop_length.
Arguments CallStft {A} n_fft hop_length.
Arguments CallIstft {A} hop_length length.
Arguments InitBanner {A} default_method.
Arguments DoneLine {A} method.

(** The external world of the engine.  [lib_error] is what these routines
    raise, [coeffs] the [(b, a)] pair of an IIR filter, [source] a path or a
    [bytes] object handed to [load_audio]. *)
Class Library (A C : Type) : Type := {
  lib_error : Type;
  coeffs : Type;
  source : Type;
  (* builtins and pathlib *)
  is_bytes : source -> bool;           (* [isinstance(filepath, bytes)] *)
  path_exists : source -> bool;        (* [Path(filepath).exists()] *)
  path_suffix_lower : source -> string; (* [Path(filepath).suffix.lower()] *)
  (* scipy.signal *)
  scipy_butter : Z -> A -> A -> lib_error + coeffs;
  scipy_iirnotch : A -> A -> lib_error + coeffs;
  scipy_filtfilt : coeffs -> list A -> lib_error + list A;
  (* librosa *)
  librosa_load : source -> option Z -> lib_error + (list A * Z);
  librosa_resample : list A -> Z -> Z -> lib_error + list A;
  librosa_trim : list A -> Z -> Z -> Z -> lib_error + list A;
  librosa_stft : list A -> Z -> Z -> string -> bool -> lib_error + matrix C;
  librosa_istft : matrix C -> Z -> string -> bool -> option nat
                  -> lib_error + list A;
  (* noisereduce *)
  nr_reduce_noise : list A -> Z -> list A -> bool -> A -> Z -> Z
                    -> lib_error + list A;
  (* numpy on complex values *)
  np_fft : list A -> lib_error + list C;
  np_abs : C -> A;
  np_angle : C -> A;
  np_exp_1j : A -> C;            (* [np.exp(1j * phase)] on one element *)
  np_scale : A -> C -> C         (* real times complex *)
}.

(** *** The monad of the engine: a call trace and a result or an exception *)

Section Monad.
Context {A C : Type} {L : Library A C}.

Definition exn : Type := error A lib_error.

Definition M (X : Type) : Type := (list (call A) * (exn + X))%type.

Definition ret {X} (x : X) : M X := ([], inr x).

Definition raise {X} (e : exn) : M X := ([], inl e).

Definition bind {X Y} (c : M X) (k : X -> M Y) : M Y :=
  match c with
  | (t, inl e) => (t, inl e)
  | (t, inr x) => let '(t', r) := k x in (t ++ t', r)
  end.

(** One external call: logged, and its exception wrapped. *)
Definition extern {X} (ev : call A) (r : lib_error + X) : M X :=
  ([ev], match r with inl e => inl (LibraryError e) | inr x => inr x end).

(** [print(...)]. *)
Definition print (line : output_line A) : M unit := ([Print line], inr tt).

(** A NumPy operation that may fail to broadcast. *)
Definition numpy {X} (r : option X) : M X :=
  match r with Some x => ret x | None => raise BroadcastError end.

Definition trace {X} (c : M X) : list (call A) := fst c.
Definition outcome {X} (c : M X) : exn + X := snd c.


End Monad.

Notation "x <- c ;; k" := (bind c (fun x => k))
  (at level 61, c at next level, right associativity).
Notation "c ;;; k" := (bind c (fun _ => k))
  (at level 61, right associativity).

(* ================================================================== *)
(** ** app/core/audio_io.py *)

Module AudioIO.
Section AudioIO.
Context {A C : Type} {S : Scalar A} {L : Library A C}.

(** [np.max(np.abs(audio))] (of a non-empty buffer: NumPy refuses the
    maximum of an empty array). *)
Definition peak (audio : list A) : A :=
  match audio with
  | [] => of_Z 0
  | a :: rest => np_max (np_absolute a) (map np_absolute rest)
  end.

(** [normalize_audio(audio, target_level=0.9)]. *)
Definition normalize_audio (audio : list A) (target_level : A) : list A :=
  match audio with
  | [] => audio
  | _ :: _ =>
      let current_max := peak audio in
      if (of_Z 0 <? current_max)%S then
        let norm_factor := (target_level / current_max)%S in
        let audio_normalized := map (fun x => (x * norm_factor)%S) audio in
        map (np_clip (of_Z (-1)) (of_Z 1)) audio_normalized
      else audio
  end.

(** [normalize_audio] again, with its two partial operations in sight:
    [np.max] raises on an empty array, and [target_level / current_max] has
    no value for a zero peak.  [None] is a run that reaches either. *)
Definition normalize_audio_checked (audio : list A) (target_level : A)
  : option (list A) :=
  if (List.length audio =? 0)%nat then Some audio
  else
    match audio with
    | [] => None
    | a :: rest =>
        let current_max := np_max (np_absolute a) (map np_absolute rest) in
        if (of_Z 0 <? current_max)%S then
          match checked_div target_level current_max with
          | None => None
          | Some norm_factor =>
              let audio_normalized :=
                map (fun x => (x * norm_factor)%S) audio in
              Some (map (np_clip (of_Z (-1)) (of_Z 1)) audio_normalized)
          end
        else Some audio
    end.

Definition default_target_level : A := of_Q (9 # 10).

(** The class attribute [SUPPORTED_FORMATS]. *)
Definition SUPPORTED_FORMATS : list string :=
  [".wav"; ".mp3"; ".ogg"; ".flac"; ".m4a"; ".aac"].

(** [load_audio(filepath, sr=16000)].  A [bytes] object goes to
    [librosa.load] directly; a path must exist and carry a supported suffix
    first.  Every failure, of the file checks or of librosa, is re-raised as
    the [ValueError] of the [except] clause. *)
Definition load_audio (filepath : source) (sr : option Z) : M (list A * Z) :=
  let decode : M (list A * Z) :=
    match librosa_load filepath sr with
    | inl e => ([CallLoad], inl (LoadError (Undecodable e)))
    | inr (audio, sr_orig) =>
        ([CallLoad],
         inr (normalize_audio audio default_target_level,
              match sr with None => sr_orig | Some r => r end))
    end in
  if is_bytes filepath then decode
  else if negb (path_exists filepath) then raise (LoadError FileNotFound)
  else if negb (existsb (String.eqb (path_suffix_lower filepath))
                        SUPPORTED_FORMATS)
  then raise (LoadError UnsupportedFormat)
  else decode.

(** [resample_audio(audio, orig_sr, target_sr)]. *)
Definition resample_audio (audio : list A) (orig_sr target_sr : Z)
  : M (list A) :=
  if orig_sr =? target_sr then ret audio
  else extern (CallResample orig_sr target_sr)
              (librosa_resample audio orig_sr target_sr).

(** [convert_to_mono(audio)], on a 1-D or 2-D array. *)
Definition convert_to_mono (audio : ndarray A) : ndarray A :=
  match audio with
  | Arr1 _ => audio
  | Arr2 m =>
      if (cols m <? rows m)%nat then Arr1 (mean_axis0 m)
      else Arr1 (mean_axis1 m)
  end.

(** [trim_silence(audio, sr, top_db=30, frame_length=2048, hop_length=512)]. *)
Definition trim_silence (audio : list A) (sr : Z)
           (top_db frame_length hop_length : Z) : M (list A) :=
  extern (CallTrim top_db frame_length hop_length)
         (librosa_trim audio top_db frame_length hop_length).
End AudioIO.
End AudioIO.

(* ================================================================== *)
(** ** app/core/stft_utils.py *)

Module STFTUtils.
Section STFTUtils.
Context {A C : Type} {S : Scalar A} {L : Library A C}.

Definition DEFAULT_N_FFT : Z := 2048.
Definition DEFAULT_HOP_LENGTH : Z := 512.
Definition DEFAULT_WINDOW : string := "hann".

(** [stft(audio, n_fft, hop_length, window='hann', center=True)]. *)
Definition stft (audio : list A) (n_fft hop_length : Z) : M (matrix C) :=
  extern (CallStft n_fft hop_length)
         (librosa_stft audio n_fft hop_length DEFAULT_WINDOW true).

(** [istft(stft_matrix, hop_length, window='hann', center=True, length)]. *)
Definition istft (stft_matrix : matrix C) (hop_length : Z)
           (length : option nat) : M (list A) :=
  extern (CallIstft hop_length length)
         (librosa_istft stft_matrix hop_length DEFAULT_WINDOW true length).

(** [get_magnitude_phase(stft_matrix)]. *)
Definition get_magnitude_phase (stft_matrix : matrix C)
  : matrix A * matrix A :=
  let magnitude := mmap np_abs stft_matrix in
  let phase := mmap np_angle stft_matrix in
  (magnitude, phase).

(** [combine_magnitude_phase(magnitude, phase)]:
    [magnitude * np.exp(1j * phase)]. *)
Definition combine_magnitude_phase (magnitude phase : matrix A)
  : option (matrix C) :=
  broadcast np_scale magnitude (mmap np_exp_1j phase).

(** [estimate_noise_profile(audio, sr, noise_duration=0.5, n_fft, hop_length)]. *)
Definition estimate_noise_profile (audio : list A) (sr : Z)
           (noise_duration : A) (n_fft hop_length : Z) : M (ndarray A) :=
  let noise_samples := py_int (noise_duration * of_Z sr)%S in
  let noise_segment :=
    if Z.of_nat (List.length audio) <=? noise_samples then audio
    else py_slice_to noise_samples audio in
  noise_stft <- stft noise_segment n_fft hop_length ;;
  let noise_profile := mean_axis1_keepdims (mmap np_abs noise_stft) in
  ret noise_profile.

(** [spectral_subtraction(stft_matrix, noise_profile, over_subtraction=1.5,
    spectral_floor=0.01)].  Pure NumPy: it can only fail to broadcast. *)
Definition spectral_subtraction (stft_matrix : matrix C)
           (noise_profile : ndarray A) (over_subtraction spectral_floor : A)
  : option (matrix C) :=
  let '(magnitude, phase) := get_magnitude_phase stft_matrix in
  match broadcast s_sub magnitude
          (as_matrix (nd_map (fun n => (over_subtraction * n)%S) noise_profile))
  with
  | None => None
  | Some subtracted =>
      match broadcast np_maximum subtracted
              (mmap (fun m => (spectral_floor * m)%S) magnitude)
      with
      | None => None
      | Some magnitude_clean => combine_magnitude_phase magnitude_clean phase
      end
  end.
End STFTUtils.
End STFTUtils.

(* ================================================================== *)
(** ** app/core/denoiser.py *)

Module Denoiser.
Section Denoiser.
Context {A C : Type} {S : Scalar A} {L : Library A C}.

Definition METHOD_BANDPASS : string := "bandpass".
Definition METHOD_SPECTRAL_SUBTRACTION : string := "spectral_subtraction".
Definition METHOD_WIENER : string := "wiener".
Definition METHOD_NOISEREDUCE : string := "noisereduce".
Definition METHOD_ADAPTIVE : string := "adaptive".

(** The class-level dict of speech bands (Hz). *)
Definition SPEECH_FREQ_RANGES : list (string * (Z * Z)) :=
  [ ("male", (80, 8000)); ("female", (100, 10000));
    ("broadband", (50, 12000)) ].

(** [d.get(key, default)]. *)
Fixpoint dict_get {V} (key : string) (d : list (string * V)) (default : V)
  : V :=
  match d with
  | [] => default
  | (k, v) :: d' => if String.eqb k key then v else dict_get key d' default
  end.

(** The fields of [self] that the methods read.  ([method_params] is
    filled by [__init__] and never read afterwards.) *)
Record denoiser : Type := mkDenoiser {
  default_method : string;
  target_sr : Z;
  verbose : bool
}.

(** [_notch_filter(audio, sr, freq=50.0, Q=30.0)]. *)
Definition _notch_filter (self : denoiser) (audio : list A) (sr : Z)
           (freq Q : A) : M (list A) :=
  let w0 := (freq / (of_Z sr / of_Z 2))%S in
  ba <- extern (CallIirnotch w0 Q) (scipy_iirnotch w0 Q) ;;
  extern CallFiltfilt (scipy_filtfilt ba audio).

(** The guard of the notch stage:
    [45 <= lowcut <= 55 or 45 <= highcut <= 55]. *)
Definition notch_skipped (lowcut highcut : A) : bool :=
  ((of_Z 45 <=? lowcut)%S && (lowcut <=? of_Z 55)%S)
  || ((of_Z 45 <=? highcut)%S && (highcut <=? of_Z 55)%S).

(** The two cutoffs after the defaults of the voice profile and the clamp
    under the Nyquist frequency (lines 197-206). *)
Definition effective_band (sr : Z) (lowcut highcut : option A)
           (voice_type : string) : A * A :=
  let '(lowcut, highcut) :=
    match lowcut, highcut with
    | Some l, Some h => (l, h)
    | _, _ =>
        let freq_range :=
          dict_get voice_type SPEECH_FREQ_RANGES
                   (dict_get "broadband" SPEECH_FREQ_RANGES (0, 0)) in
        (match lowcut with None => of_Z (fst freq_range) | Some l => l end,
         match highcut with None => of_Z (snd freq_range) | Some h => h end)
    end in
  let nyquist := (of_Q (1 # 2) * of_Z sr)%S in
  let lowcut := py_min lowcut (nyquist - of_Z 1)%S in
  let highcut := py_min highcut (nyquist - of_Z 1)%S in
  (lowcut, highcut).

(** [_bandpass_filter(audio, sr, lowcut=None, highcut=None, order=5,
    voice_type='broadband')]. *)
Definition _bandpass_filter (self : denoiser) (audio : list A) (sr : Z)
           (lowcut highcut : option A) (order : Z) (voice_type : string)
  : M (list A) :=
  let '(lowcut, highcut) := effective_band sr lowcut highcut voice_type in
  let nyquist := (of_Q (1 # 2) * of_Z sr)%S in
  if (highcut <=? lowcut)%S then raise (InvalidBand lowcut highcut)
  else
    let low := (lowcut / nyquist)%S in
    let high := (highcut / nyquist)%S in
    ba <- extern (CallButter order low high) (scipy_butter order low high) ;;
    audio_filtered <- extern CallFiltfilt (scipy_filtfilt ba audio) ;;
    if notch_skipped lowcut highcut then ret audio_filtered
    else _notch_filter self audio_filtered sr (of_Z 50) (of_Z 30).

(** [_spectral_subtraction(audio, sr, n_fft=2048, hop_length=512,
    over_subtraction=1.5, spectral_floor=0.01, noise_duration=0.5)]. *)
Definition _spectral_subtraction (self : denoiser) (audio : list A) (sr : Z)
           (n_fft hop_length : Z) (over_subtraction spectral_floor : A)
           (noise_duration : A) : M (list A) :=
  noise_profile <- STFTUtils.estimate_noise_profile
                     audio sr noise_duration n_fft hop_length ;;
  stft_matrix <- STFTUtils.stft audio n_fft hop_length ;;
  stft_clean <- numpy (STFTUtils.spectral_subtraction
                         stft_matrix noise_profile
                         over_subtraction spectral_floor) ;;
  STFTUtils.istft stft_clean hop_length (Some (List.length audio)).

(** Lines 333-338 of [_wiener_filter]: the noise PSD, averaged over the
    leading [noise_frames] frames, or over all of them. *)
Definition wiener_noise_psd (stft_matrix : matrix C) (noise_frames : Z)
  : vector A :=
  let power := fun z : C => (np_abs z * np_abs z)%S in
  if noise_frames <? Z.of_nat (cols stft_matrix) then
    mean_axis1 (mmap power (slice_cols noise_frames stft_matrix))
  else
    mean_axis1 (mmap power stft_matrix).

(** Lines 340-346 of [_wiener_filter]: the Wiener weights. *)
Definition wiener_weights (magnitude : matrix A) (noise_psd : vector A)
  : option (matrix A) :=
  let magnitude_squared := mmap (fun m => (m * m)%S) magnitude in
  match broadcast s_sub magnitude_squared (newaxis_col noise_psd) with
  | None => None
  | Some difference =>
      let signal_psd_est := mmap (fun d => np_maximum d (of_Z 0)) difference in
      match broadcast s_div signal_psd_est
              (mmap (fun n => (n + of_Q (1 # 10000000000))%S)
                    (newaxis_col noise_psd))
      with
      | None => None
      | Some prior_snr =>
          broadcast s_div prior_snr
                    (mmap (fun s => (s + of_Z 1)%S) prior_snr)
      end
  end.

(** Lines 331-352 of [_wiener_filter]: from the spectrum of the input to
    the spectrum handed to the inverse transform. *)
Definition wiener_clean (stft_matrix : matrix C) (noise_frames : Z)
  : option (matrix C) :=
  let '(magnitude, phase) := STFTUtils.get_magnitude_phase stft_matrix in
  let noise_psd := wiener_noise_psd stft_matrix noise_frames in
  match wiener_weights magnitude noise_psd with
  | None => None
  | Some weights =>
      match broadcast s_mul magnitude weights with
      | None => None
      | Some magnitude_clean =>
          STFTUtils.combine_magnitude_phase magnitude_clean phase
      end
  end.

(** [_wiener_filter(audio, sr, n_fft=2048, hop_length=512, smoothing=0.98)]. *)
Definition _wiener_filter (self : denoiser) (audio : list A) (sr : Z)
           (n_fft hop_length : Z) (smoothing : A) : M (list A) :=
  stft_matrix <- STFTUtils.stft audio n_fft hop_length ;;
  if hop_length =? 0 then raise ZeroDivisionError
  else
    let noise_frames :=
      py_int ((of_Q (1 # 2) * of_Z sr) / of_Z hop_length)%S in
    stft_clean <- numpy (wiener_clean stft_matrix noise_frames) ;;
    STFTUtils.istft stft_clean hop_length (Some (List.length audio)).

(** [_noisereduce_filter(audio, sr, stationary=False, prop_decrease=0.9,
    n_fft=2048, hop_length=512)]. *)
Definition _noisereduce_filter (self : denoiser) (audio : list A) (sr : Z)
           (stationary : bool) (prop_decrease : A) (n_fft hop_length : Z)
  : M (list A) :=
  let noise_clip := py_slice_to (py_int (of_Q (1 # 2) * of_Z sr)%S) audio in
  extern (CallReduceNoise sr stationary prop_decrease n_fft hop_length)
         (nr_reduce_noise audio sr noise_clip stationary prop_decrease
                          n_fft hop_length).

(** [np.fft.fftfreq(n)]: the integers [0 .. (n-1)//2, -(n//2) .. -1],
    each times [val = 1.0 / n].  The frequencies depend on the length only
    and are binary64 numbers whatever the samples are: the masks compare the
    rounded products (at [n = 10], [3 * (1.0 / 10)] is
    0.30000000000000004). *)
Definition np_fftfreq (n : nat) : list float :=
  let N := ((Z.of_nat n - 1) / 2 + 1) in
  let positive := map Z.of_nat (seq 0 (Z.to_nat N)) in
  let negative :=
    map (fun k => Z.of_nat k - Z.of_nat n / 2) (seq 0 (n - Z.to_nat N)) in
  let val := PrimFloat.div (float_of_Z 1) (float_of_Z (Z.of_nat n)) in
  map (fun k => PrimFloat.mul (float_of_Z k) val) (positive ++ negative).

(** [a[mask]] for a boolean mask. *)
Definition mask_select {T} (a : list T) (mask : list bool) : list T :=
  map fst (filter snd (combine a mask)).

(** [_estimate_noise_level(audio)].  ([mask_low] is computed by the source
    and never used; [fftfreq] divides by the length, a Python [float]
    division that raises on 0.) *)
Definition _estimate_noise_level (self : denoiser) (audio : list A) : M A :=
  fft_result <- extern CallFft (np_fft audio) ;;
  if (List.length audio =? 0)%nat then raise ZeroDivisionError
  else
    let freqs := np_fftfreq (List.length audio) in
    let mask_low :=
      map (fun f => PrimFloat.ltb (PrimFloat.abs f) (float_of_Q (1 # 10)))
          freqs in
    let mask_high :=
      map (fun f => PrimFloat.ltb (float_of_Q (3 # 10)) (PrimFloat.abs f))
          freqs in
    let power := fun z : C => (np_abs z * np_abs z)%S in
    let power_total := np_sum (map power fft_result) in
    let power_high := np_sum (map power (mask_select fft_result mask_high)) in
    let noise_ratio :=
      if (of_Z 0 <? power_total)%S then (power_high / power_total)%S
      else of_Z 0 in
    ret (py_min noise_ratio (of_Z 1)).

(** [_adaptive_denoise(audio, sr, initial_method, fallback_method)]. *)
Definition _adaptive_denoise (self : denoiser) (audio : list A) (sr : Z)
           (initial_method fallback_method : string) : M (list A) :=
  audio_stage1 <- _bandpass_filter self audio sr None None 5 "broadband" ;;
  noise_level <- _estimate_noise_level self audio_stage1 ;;
  (if verbose self then print (NoiseLevelLine noise_level) else ret tt) ;;;
  if (noise_level <? of_Q (5 # 100))%S then
    ret audio_stage1
  else if (noise_level <? of_Q (15 # 100))%S then
    audio_stage2 <- _spectral_subtraction self audio_stage1 sr 2048 512
                      (of_Q (15 # 10)) (of_Q (1 # 100)) (of_Q (1 # 2)) ;;
    ret audio_stage2
  else
    audio_stage2 <- _spectral_subtraction self audio_stage1 sr 2048 512
                      (of_Q (15 # 10)) (of_Q (1 # 100)) (of_Q (1 # 2)) ;;
    audio_stage3 <- _noisereduce_filter self audio_stage2 sr false
                      (of_Q (9 # 10)) 2048 512 ;;
    ret audio_stage3.

(** **** The entry point *)

(** [audio]: a sample array, or a path / [bytes] object to load. *)
Inductive audio_input : Type :=
| Samples (data : list A)
| FromSource (src : source).

(** [**kwargs]: the keywords a caller may pass on to the method. *)
Record kwargs : Type := mkKwargs {
  kw_lowcut : option A;
  kw_highcut : option A;
  kw_order : option Z;
  kw_voice_type : option string;
  kw_n_fft : option Z;
  kw_hop_length : option Z;
  kw_over_subtraction : option A;
  kw_spectral_floor : option A;
  kw_noise_duration : option A;
  kw_smoothing : option A;
  kw_stationary : option bool;
  kw_prop_decrease : option A;
  kw_initial_method : option string;
  kw_fallback_method : option string
}.

Definition no_kwargs : kwargs :=
  mkKwargs None None None None None None None None None None None None
           None None.

Definition absent {T} (o : option T) : bool :=
  match o with None => true | Some _ => false end.

Definition or_default {T} (o : option T) (d : T) : T :=
  match o with None => d | Some x => x end.

Definition no_band_kw (kw : kwargs) : bool :=
  absent (kw_lowcut kw) && absent (kw_highcut kw) && absent (kw_order kw)
  && absent (kw_voice_type kw).
Definition no_fft_kw (kw : kwargs) : bool :=
  absent (kw_n_fft kw) && absent (kw_hop_length kw).
Definition no_subtraction_kw (kw : kwargs) : bool :=
  absent (kw_over_subtraction kw) && absent (kw_spectral_floor kw)
  && absent (kw_noise_duration kw).
Definition no_wiener_kw (kw : kwargs) : bool := absent (kw_smoothing kw).
Definition no_reduce_kw (kw : kwargs) : bool :=
  absent (kw_stationary kw) && absent (kw_prop_decrease kw).
Definition no_adaptive_kw (kw : kwargs) : bool :=
  absent (kw_initial_method kw) && absent (kw_fallback_method kw).

(** The five calls [self._method(audio_data, orig_sr, **kwargs)]: Python
    rejects a keyword the method does not declare before its body runs,
    and fills the missing ones with the declared defaults. *)
Definition run_method (self : denoiser) (method : string)
           (audio_data : list A) (orig_sr : Z) (kw : kwargs) : M (list A) :=
  if String.eqb method METHOD_BANDPASS then
    if no_fft_kw kw && no_subtraction_kw kw && no_wiener_kw kw
       && no_reduce_kw kw && no_adaptive_kw kw
    then _bandpass_filter self audio_data orig_sr
           (kw_lowcut kw) (kw_highcut kw) (or_default (kw_order kw) 5)
           (or_default (kw_voice_type kw) "broadband")
    else raise UnexpectedKeyword
  else if String.eqb method METHOD_SPECTRAL_SUBTRACTION then
    if no_band_kw kw && no_wiener_kw kw && no_reduce_kw kw
       && no_adaptive_kw kw
    then _spectral_subtraction self audio_data orig_sr
           (or_default (kw_n_fft kw) 2048)
           (or_default (kw_hop_length kw) 512)
           (or_default (kw_over_subtraction kw) (of_Q (15 # 10)))
           (or_default (kw_spectral_floor kw) (of_Q (1 # 100)))
           (or_default (kw_noise_duration kw) (of_Q (1 # 2)))
    else raise UnexpectedKeyword
  else if String.eqb method METHOD_WIENER then
    if no_band_kw kw && no_subtraction_kw kw && no_reduce_kw kw
       && no_adaptive_kw kw
    then _wiener_filter self audio_data orig_sr
           (or_default (kw_n_fft kw) 2048)
           (or_default (kw_hop_length kw) 512)
           (or_default (kw_smoothing kw) (of_Q (98 # 100)))
    else raise UnexpectedKeyword
  else if String.eqb method METHOD_NOISEREDUCE then
    if no_band_kw kw && no_subtraction_kw kw && no_wiener_kw kw
       && no_adaptive_kw kw
    then _noisereduce_filter self audio_data orig_sr
           (or_default (kw_stationary kw) false)
           (or_default (kw_prop_decrease kw) (of_Q (9 # 10)))
           (or_default (kw_n_fft kw) 2048)
           (or_default (kw_hop_length kw) 512)
    else raise UnexpectedKeyword
  else if String.eqb method METHOD_ADAPTIVE then
    if no_band_kw kw && no_fft_kw kw && no_subtraction_kw kw
       && no_wiener_kw kw && no_reduce_kw kw
    then _adaptive_denoise self audio_data orig_sr
           (or_default (kw_initial_method kw) METHOD_BANDPASS)
           (or_default (kw_fallback_method kw) METHOD_NOISEREDUCE)
    else raise UnexpectedKeyword
  else raise (UnknownMethod method).

(** The dict [denoise] returns, without [processing_time] (a difference of
    two readings of the wall clock). *)
Record denoise_result : Type := mkResult {
  audio : list A;
  sample_rate : Z;
  method : string;
  original_shape : nat;
  denoised_shape : nat
}.

(** [method or self.default_method], [sr or self.target_sr]: Python's [or]
    takes the right operand when the left one is [None], empty or zero. *)
Definition method_or (method : option string) (default : string) : string :=
  match method with
  | None => default
  | Some m => if String.eqb m "" then default else m
  end.

Definition sr_or (sr : option Z) (default : Z) : Z :=
  match sr with
  | None => default
  | Some r => if r =? 0 then default else r
  end.

(** Lines 119-129 of [denoise]: the samples and the rate the method gets. *)
Definition prepare_input (self : denoiser) (audio : audio_input)
           (sr : option Z) : M (list A * Z) :=
  match audio with
  | FromSource src => AudioIO.load_audio src (Some (target_sr self))
  | Samples data =>
      let audio_data := data in
      let orig_sr := sr_or sr (target_sr self) in
      if negb (orig_sr =? target_sr self) then
        audio_data <- AudioIO.resample_audio audio_data orig_sr
                                             (target_sr self) ;;
        ret (audio_data, target_sr self)
      else ret (audio_data, orig_sr)
  end.

(** [denoise(audio, sr=None, method=None, **kwargs)]. *)
Definition denoise (self : denoiser) (audio : audio_input) (sr : option Z)
           (method : option string) (kw : kwargs) : M denoise_result :=
  let method := method_or method (default_method self) in
  input <- prepare_input self audio sr ;;
  let '(audio_data, orig_sr) := input in
  let original_shape := List.length audio_data in
  denoised_audio <- run_method self method audio_data orig_sr kw ;;
  let denoised_audio :=
    AudioIO.normalize_audio denoised_audio AudioIO.default_target_level in
  denoised_audio <- AudioIO.trim_silence denoised_audio orig_sr 30 2048 512 ;;
  (if verbose self then print (DoneLine method) else ret tt) ;;;
  ret (mkResult denoised_audio orig_sr method original_shape
                (List.length denoised_audio)).

(** [get_available_methods()]. *)
Definition get_available_methods : list string :=
  [ METHOD_BANDPASS; METHOD_SPECTRAL_SUBTRACTION; METHOD_WIENER;
    METHOD_NOISEREDUCE; METHOD_ADAPTIVE ].

(** [get_method_description(method)]: a dict lookup with a default. *)
Definition method_descriptions : list (string * string) :=
  [ (METHOD_BANDPASS,
     "Полосовая фильтрация - удаляет частоты вне речевого диапазона");
    (METHOD_SPECTRAL_SUBTRACTION,
     "Спектральное вычитание - классический метод");
    (METHOD_WIENER, "Фильтр Винера - адаптивный статистический метод");
    (METHOD_NOISEREDUCE,
     "Noisereduce - современная библиотека на основе ML");
    (METHOD_ADAPTIVE,
     "Адаптивный метод - комбинация нескольких подходов") ].

Definition get_method_description (method : string) : string :=
  dict_get method method_descriptions "Неизвестный метод".
End Denoiser.
End Denoiser.

(* ================================================================== *)
(** ** app/api/dependencies.py *)

Module Dependencies.
Section Dependencies.
Context {A C : Type} {S : Scalar A} {L : Library A C}.

(** The exception every failure of [process_audio_file] is turned into;
    its message holds the text of the original one. *)
Inductive api_error : Type :=
| ProcessingError (cause : exn).

(** The [except Exception as e: raise ProcessingError(...)] clause. *)
Definition wrap_errors {X} (run : M X) : list (call A) * (api_error + X) :=
  match run with
  | (t, inl e) => (t, inl (ProcessingError e))
  | (t, inr x) => (t, inr x)
  end.

(** [process_audio_file(file_path, denoiser, method="adaptive",
    sample_rate=None, voice_type="broadband")]. *)
Definition process_audio_file (file_path : source)
           (denoiser : Denoiser.denoiser) (method : string)
           (sample_rate : option Z) (voice_type : string)
  : list (call A) * (api_error + Denoiser.denoise_result) :=
  wrap_errors
    (let kwargs :=
       if String.eqb method "bandpass" then
         Denoiser.mkKwargs None None None (Some voice_type) None None None
                           None None None None None None None
       else Denoiser.no_kwargs in
     result <- Denoiser.denoise denoiser (Denoiser.FromSource file_path)
                                sample_rate (Some method) kwargs ;;
     match sample_rate with
     | Some rate =>
         if negb (rate =? 0) && negb (rate =? Denoiser.sample_rate result)
         then
           resampled <- AudioIO.resample_audio
                          (Denoiser.audio result)
                          (Denoiser.sample_rate result) rate ;;
           ret (Denoiser.mkResult resampled rate
                                  (Denoiser.method result)
                                  (Denoiser.original_shape result)
                                  (Denoiser.denoised_shape result))
         else ret result
     | None => ret result
     end).
End Dependencies.
End Dependencies.

(* ================================================================== *)
(** ** A library instance over exact arithmetic

  A small stand-in for SciPy, librosa and NumPy, used to run the engine on
  concrete buffers.  Spectra are kept on the real axis ([C = Qc]), with the
  phase counted in half-turns: [0] for a non-negative value, [1] for a
  negative one.  The filters let the signal through unchanged; they refuse
  the cutoffs SciPy refuses and, as [scipy.signal.filtfilt] does, a buffer
  that is not longer than the padding, three times the number of taps of
  the filter ([2 * order + 1] taps for a Butterworth band-pass, 3 for a
  notch).  The transform has librosa's shape,
  [(1 + n_fft/2, 1 + len/hop)]. *)

Module RealAxis.
Local Open Scope Qc_scope.

(** A designed filter: the number of taps of [b] and [a], and the
    parameters it was designed from. *)
Definition filter : Type := (nat * (Qc * Qc))%type.

Definition butter (order : Z) (low high : Qc) : unit + filter :=
  if Qc_ltb 0 low && Qc_ltb high 1
  then inr (Z.to_nat (2 * order + 1), (low, high)) else inl tt.

Definition iirnotch (w0 Q : Qc) : unit + filter :=
  if Qc_ltb 0 w0 && Qc_ltb w0 1 then inr (3%nat, (w0, Q)) else inl tt.

(** [padlen = 3 * max(len(a), len(b))]; the input must be longer. *)
Definition filtfilt (ba : filter) (x : list Qc) : unit + list Qc :=
  if (List.length x <=? 3 * fst ba)%nat then inl tt else inr x.

(** What [load_audio] may be given: a [bytes] object, or a path, of which
    the suffix, whether the file is there, and the samples in it matter. *)
Inductive input : Type :=
| Bytes (data : list Qc)
| File (suffix : string) (present : bool) (data : list Qc).

Definition samples (src : input) : list Qc :=
  match src with Bytes data | File _ _ data => data end.

Definition load (src : input) (sr : option Z) : unit + (list Qc * Z) :=
  inr (samples src, match sr with None => 22050%Z | Some r => r end).

Definition resample (x : list Qc) (orig_sr target_sr : Z)
  : unit + list Qc := inr x.

Definition trim (x : list Qc) (top_db frame_length hop_length : Z)
  : unit + list Qc := inr x.

Definition stft (x : list Qc) (n_fft hop_length : Z) (window : string)
           (center : bool) : unit + matrix Qc :=
  if ((n_fft <=? 0) || (hop_length <=? 0))%Z then inl tt
  else inr (mkMatrix (Z.to_nat (n_fft / 2 + 1))
                     (S (List.length x / Z.to_nat hop_length))
                     (fun i j => nth (j * Z.to_nat hop_length) x 0)).

Definition istft (m : matrix Qc) (hop_length : Z) (window : string)
           (center : bool) (length : option nat) : unit + list Qc :=
  inr (map (item m 0)
           (seq 0 (match length with None => cols m | Some n => n end))).

Definition reduce_noise (y : list Qc) (sr : Z) (y_noise : list Qc)
           (stationary : bool) (prop_decrease : Qc) (n_fft hop_length : Z)
  : unit + list Qc := inr y.

Definition fft (x : list Qc) : unit + list Qc :=
  match x with [] => inl tt | _ => inr x end.

Definition abs (z : Qc) : Qc := if Qc_ltb z 0 then - z else z.
Definition angle (z : Qc) : Qc := if Qc_ltb z 0 then 1 else 0.
Definition exp_1j (phase : Qc) : Qc :=
  if Qc_eq_bool phase 0 then 1 else - (1).
Definition scale (m z : Qc) : Qc := m * z.

Definition library : Library Qc Qc := {|
  lib_error := unit;
  coeffs := filter;
  source := input;
  is_bytes := fun src => match src with Bytes _ => true | _ => false end;
  path_exists :=
    fun src => match src with File _ present _ => present | _ => false end;
  path_suffix_lower :=
    fun src => match src with File suffix _ _ => suffix | _ => "" end;
  scipy_butter := butter;
  scipy_iirnotch := iirnotch;
  scipy_filtfilt := filtfilt;
  librosa_load := load;
  librosa_resample := resample;
  librosa_trim := trim;
  librosa_stft := stft;
  librosa_istft := istft;
  nr_reduce_noise := reduce_noise;
  np_fft := fft;
  np_abs := abs;
  np_angle := angle;
  np_exp_1j := exp_1j;
  np_scale := scale
|}.

(** Literals. *)
Definition q (n : Z) (d : positive) : Qc := Q2Qc (n # d).
Definition z (n : Z) : Qc := Q2Qc (inject_Z n).



(** A buffer of [n] samples that alternate between 1 and -1. *)
Definition alternating (n : nat) : list Qc :=
  map (fun k => if Nat.even k then z 1 else z (-1)) (seq 0 n).

Definition self : Denoiser.denoiser :=
  Denoiser.mkDenoiser "adaptive" 16000 false.
End RealAxis.

(** ** A library instance over binary64

  Spectra on the real axis with binary64 values, to evaluate the NumPy
  kernels of the engine as NumPy computes them.  The kernels use the
  element-wise functions only; the external routines of this instance
  refuse every call. *)

Module Binary64.
Definition abs (z : float) : float := PrimFloat.abs z.
Definition angle (z : float) : float :=
  if PrimFloat.ltb z (float_of_Z 0) then float_of_Z 1 else float_of_Z 0.
Definition exp_1j (phase : float) : float :=
  if PrimFloat.eqb phase (float_of_Z 0) then float_of_Z 1
  else float_of_Z (-1).
Definition scale (m z : float) : float := PrimFloat.mul m z.

Definition library : Library float float := {|
  lib_error := unit;
  coeffs := unit;
  source := unit;
  is_bytes := fun _ => true;
  path_exists := fun _ => false;
  path_suffix_lower := fun _ => "";
  scipy_butter := fun _ _ _ => inl tt;
  scipy_iirnotch := fun _ _ => inl tt;
  scipy_filtfilt := fun _ _ => inl tt;
  librosa_load := fun _ _ => inl tt;
  librosa_resample := fun _ _ _ => inl tt;
  librosa_trim := fun _ _ _ _ => inl tt;
  librosa_stft := fun _ _ _ _ _ => inl tt;
  librosa_istft := fun _ _ _ _ _ => inl tt;
  nr_reduce_noise := fun _ _ _ _ _ _ _ => inl tt;
  np_fft := fun _ => inl tt;
  np_abs := abs;
  np_angle := angle;
  np_exp_1j := exp_1j;
  np_scale := scale
|}.

(** The spectrum of a silent lead-in followed by a loud frame: one bin,
    two frames, of magnitudes 0 and 1000. *)
Definition silence_then_loud : matrix float :=
  of_rows (float_of_Z 0) [[float_of_Z 0; float_of_Z 1000]].
End Binary64.

(* ================================================================== *)
(** ** Observations on a run *)

(** The notch stage shows in the trace as the design of its filter. *)
Definition is_notch_call {A} (ev : call A) : bool :=
  match ev with CallIirnotch _ _ => true | _ => false end.

Definition notch_ran {A C} {L : Library A C} {X} (run : M X) : bool :=
  existsb is_notch_call (trace run).


(** The exceptions that come from inside a processing stage: an external
    routine that raised, a NumPy shape mismatch, a division by a zero hop
    length or buffer length. *)
Definition stage_error {A E} (e : error A E) : Prop :=
  match e with
  | LibraryError _ | BroadcastError | ZeroDivisionError => True
  | _ => False
  end.


(** The words of the specification: the pass-band [[lowcut, highcut]]
    overlaps the 45-55 Hz region. *)
Definition spec_band_overlaps_hum {A} `{Scalar A} (lowcut highcut : A) : bool :=
  (lowcut <=? of_Z 55)%S && (of_Z 45 <=? highcut)%S.

(* ================================================================== *)
(** * Properties *)

(** ** Order and arithmetic on [Qc] *)

(** From [Qc] to [Q], where [lra] decides linear goals. *)
Ltac qc2q :=
  unfold Qcle, Qclt, Qcminus, Qcplus, Qcopp, Qcmult, Q2Qc in *;
  cbn [this] in *;
  repeat match goal with
         | H : context [Qred ?q] |- _ => rewrite (Qred_correct q) in H
         | |- context [Qred ?q] => rewrite (Qred_correct q)
         end;
  unfold inject_Z in *.

Section QcFacts.
Local Open Scope Qc_scope.

Lemma Qc_ltb_lt (x y : Qc) : Qc_ltb x y = true <-> x < y.
Proof.
  unfold Qc_ltb. rewrite Qclt_alt.
  destruct (x ?= y); split; congruence.
Qed.

Lemma Qc_ltb_ge (x y : Qc) : Qc_ltb x y = false <-> y <= x.
Proof.
  split; intro H.
  - apply Qcnot_lt_le. intro Hlt. apply Qc_ltb_lt in Hlt. congruence.
  - destruct (Qc_ltb x y) eqn:E; [|reflexivity].
    apply Qc_ltb_lt in E. exfalso. exact (Qcle_not_lt _ _ H E).
Qed.

Lemma Qc_leb_le (x y : Qc) : Qc_leb x y = true <-> x <= y.
Proof.
  unfold Qc_leb. rewrite Qcle_alt.
  destruct (x ?= y); split; congruence.
Qed.

Lemma Qc_leb_gt (x y : Qc) : Qc_leb x y = false <-> y < x.
Proof.
  split; intro H.
  - apply Qcnot_le_lt. intro Hle. apply Qc_leb_le in Hle. congruence.
  - destruct (Qc_leb x y) eqn:E; [|reflexivity].
    apply Qc_leb_le in E. exfalso. exact (Qclt_not_le _ _ H E).
Qed.

Lemma Qc_max_l (a b : Qc) : a <= (if Qc_ltb a b then b else a).
Proof.
  destruct (Qc_ltb a b) eqn:E.
  - apply Qclt_le_weak, Qc_ltb_lt, E.
  - apply Qcle_refl.
Qed.

Lemma Qc_max_r (a b : Qc) : b <= (if Qc_ltb a b then b else a).
Proof.
  destruct (Qc_ltb a b) eqn:E.
  - apply Qcle_refl.
  - apply Qc_ltb_ge, E.
Qed.

Lemma Qc_abs_nonneg (a : Qc) : 0 <= (if Qc_ltb a 0 then - a else a).
Proof.
  destruct (Qc_ltb a 0) eqn:E.
  - apply Qc_ltb_lt in E. apply Qclt_le_weak in E.
    apply Qcopp_le_compat in E. exact E.
  - apply Qc_ltb_ge, E.
Qed.

Lemma Qc_mult_nonneg (a b : Qc) : 0 <= a -> 0 <= b -> 0 <= a * b.
Proof.
  intros Ha Hb. rewrite <- (Qcmult_0_l b).
  apply Qcmult_le_compat_r; assumption.
Qed.

Lemma Qc_square_nonneg (a : Qc) : 0 <= a * a.
Proof.
  destruct (Qclt_le_dec a 0) as [Hneg | Hpos].
  - replace (a * a) with ((- a) * (- a)) by ring.
    assert (0 <= - a) by (apply Qclt_le_weak in Hneg;
                          apply Qcopp_le_compat in Hneg; exact Hneg).
    apply Qc_mult_nonneg; assumption.
  - apply Qc_mult_nonneg; assumption.
Qed.

Lemma Qc_plus_nonneg (a b : Qc) : 0 <= a -> 0 <= b -> 0 <= a + b.
Proof.
  intros Ha Hb. replace 0 with (0 + 0) by ring.
  apply Qcplus_le_compat; assumption.
Qed.

Lemma Qc_plus_pos (a b : Qc) : 0 <= a -> 0 < b -> 0 < a + b.
Proof.
  intros Ha Hb. qc2q. lra.
Qed.

Lemma Qc_inv_pos (a : Qc) : 0 < a -> 0 < / a.
Proof.
  intro Ha. unfold Qcinv. qc2q. apply Qinv_lt_0_compat. exact Ha.
Qed.

Lemma Qc_div_nonneg (a b : Qc) : 0 <= a -> 0 < b -> 0 <= a / b.
Proof.
  intros Ha Hb. unfold Qcdiv. apply Qc_mult_nonneg; [exact Ha|].
  apply Qclt_le_weak, Qc_inv_pos, Hb.
Qed.

(** [s / (s + 1)] lies in [[0, 1)] for [s >= 0]. *)
Lemma Qc_ratio_unit (s : Qc) : 0 <= s -> 0 <= s / (s + 1) /\ s / (s + 1) < 1.
Proof.
  intro Hs.
  assert (Hpos : 0 < s + 1) by (apply Qc_plus_pos; [exact Hs | reflexivity]).
  split; [apply Qc_div_nonneg; assumption|].
  assert (Hne : s + 1 <> 0).
  { intro E. rewrite E in Hpos. exact (Qclt_not_eq _ _ Hpos eq_refl). }
  assert (Hlt : s < s + 1).
  { clear Hpos Hne. qc2q. lra. }
  apply (Qcmult_lt_compat_r _ _ (/ (s + 1)) (Qc_inv_pos Hpos)) in Hlt.
  rewrite Qcmult_inv_r in Hlt by exact Hne. exact Hlt.
Qed.
End QcFacts.

(** ** Normalization ([AudioIO.normalize_audio]) *)

Section Normalize.
Local Open Scope Qc_scope.

Let maxQc (a b : Qc) : Qc := if Qc_ltb a b then b else a.

Lemma fold_max_ge_init (l : list Qc) (x : Qc) : x <= fold_left maxQc l x.
Proof.
  revert x. induction l as [|y l IH]; intro x; simpl.
  - apply Qcle_refl.
  - apply Qcle_trans with (maxQc x y); [apply Qc_max_l | apply IH].
Qed.

Lemma fold_max_ge_elem (l : list Qc) (x y : Qc) :
  In y l -> y <= fold_left maxQc l x.
Proof.
  revert x. induction l as [|z l IH]; intros x Hin; simpl in *.
  - contradiction.
  - destruct Hin as [-> | Hin].
    + apply Qcle_trans with (maxQc x y);
        [apply Qc_max_r | apply fold_max_ge_init].
    + apply IH, Hin.
Qed.

Lemma peak_ge (audio : list Qc) (x : Qc) :
  In x audio -> np_absolute x <= AudioIO.peak audio.
Proof.
  destruct audio as [|a rest]; [contradiction|].
  intros [-> | Hin]; unfold AudioIO.peak, np_max.
  - apply fold_max_ge_init.
  - apply fold_max_ge_elem, in_map, Hin.
Qed.

Lemma abs_bounds (x m : Qc) : np_absolute x <= m -> - m <= x /\ x <= m.
Proof.
  cbn. destruct (Qc_ltb x (Q2Qc 0)) eqn:E; intro H.
  - apply Qc_ltb_lt in E. qc2q. lra.
  - apply Qc_ltb_ge in E. qc2q. lra.
Qed.

Lemma clip_id (x : Qc) :
  - (1) <= x -> x <= 1 -> np_clip (of_Z (-1)) (of_Z 1) x = x.
Proof.
  intros Hlo Hhi. unfold np_clip. cbn.
  assert (E1 : Qc_ltb x (Q2Qc (inject_Z (-1))) = false)
    by (apply Qc_ltb_ge; exact Hlo).
  rewrite E1.
  assert (E2 : Qc_ltb (Q2Qc (inject_Z 1)) x = false)
    by (apply Qc_ltb_ge; exact Hhi).
  rewrite E2. reflexivity.
Qed.

Lemma clip_range (x : Qc) :
  - (1) <= np_clip (of_Z (-1)) (of_Z 1) x
  /\ np_clip (of_Z (-1)) (of_Z 1) x <= 1.
Proof.
  unfold np_clip. cbn.
  destruct (Qc_ltb x (Q2Qc (inject_Z (-1)))) eqn:E1.
  - assert (E2 : Qc_ltb (Q2Qc (inject_Z 1)) (Q2Qc (inject_Z (-1))) = false)
      by reflexivity.
    rewrite E2. split; [apply Qcle_refl | discriminate].
  - apply Qc_ltb_ge in E1.
    destruct (Qc_ltb (Q2Qc (inject_Z 1)) x) eqn:E2.
    + split; [discriminate | apply Qcle_refl].
    + apply Qc_ltb_ge in E2. split; assumption.
Qed.

Lemma peak_zeros (audio : list Qc) :
  Forall (fun x => x = 0) audio -> AudioIO.peak audio = 0.
Proof.
  destruct audio as [|a rest]; [reflexivity|].
  intro H. inversion H as [|? ? Ha Hrest]; subst.
  unfold AudioIO.peak, np_max. cbn.
  clear H. induction rest as [|b rest IH]; [reflexivity|].
  inversion Hrest; subst. cbn. apply IH. assumption.
Qed.
End Normalize.

Section NormalizeClaims.
Local Open Scope Qc_scope.

Lemma normalize_cases (audio : list Qc) (t : Qc) :
  audio <> [] ->
  (0 < AudioIO.peak audio
   /\ AudioIO.normalize_audio audio t
      = map (fun x => np_clip (of_Z (-1)) (of_Z 1) (x * (t / AudioIO.peak audio)))
            audio)
  \/ (AudioIO.peak audio = 0 /\ AudioIO.normalize_audio audio t = audio).
Proof.
  destruct audio as [|a rest]; [congruence|]. intros _.
  unfold AudioIO.normalize_audio.
  set (m := AudioIO.peak (a :: rest)).
  change ((of_Z 0 <? m)%S) with (Qc_ltb 0 m).
  destruct (Qc_ltb 0 m) eqn:E.
  - left. split; [apply Qc_ltb_lt, E|]. rewrite map_map. reflexivity.
  - right. split; [|reflexivity].
    apply Qc_ltb_ge in E. apply Qcle_antisym; [exact E|].
    apply Qcle_trans with (np_absolute a).
    + apply Qc_abs_nonneg.
    + apply peak_ge. left. reflexivity.
Qed.

(** C10.  Normalization is total on degenerate inputs: the empty buffer and
    every all-zero buffer come back unchanged, and on a non-empty buffer the
    quotient [target_level / peak] is formed only when the peak is strictly
    positive; otherwise the peak is zero and the buffer is returned as it
    is.  No run takes the maximum of an empty array or divides by a zero
    peak: with these two operations partial, every run still has a result,
    the one of [normalize_audio]. *)
Theorem normalize_audio_degenerate :
  (forall t : Qc, AudioIO.normalize_audio [] t = [])
  /\ (forall (audio : list Qc) (t : Qc),
        Forall (fun x => x = 0) audio ->
        AudioIO.normalize_audio audio t = audio)
  /\ (forall (audio : list Qc) (t : Qc),
        audio <> [] ->
        (0 < AudioIO.peak audio
         /\ AudioIO.normalize_audio audio t
            = map (fun x => np_clip (of_Z (-1)) (of_Z 1)
                                    (x * (t / AudioIO.peak audio))) audio)
        \/ (AudioIO.peak audio = 0
            /\ AudioIO.normalize_audio audio t = audio))
  /\ (forall (audio : list Qc) (t : Qc),
        AudioIO.normalize_audio_checked audio t
        = Some (AudioIO.normalize_audio audio t))
  /\ (forall (audio : list Qc) (t : Qc),
        audio = [] \/ Forall (fun x => x = 0) audio ->
        AudioIO.normalize_audio_checked audio t = Some audio).
Proof.
  assert (Hzeros : forall (audio : list Qc) (t : Qc),
            Forall (fun x => x = 0) audio ->
            AudioIO.normalize_audio audio t = audio).
  { intros audio t Hz.
    destruct audio as [|a rest]; [reflexivity|].
    destruct (@normalize_cases (a :: rest) t) as [[Hpos _] | [_ H]];
      [discriminate | | exact H].
    rewrite (peak_zeros Hz) in Hpos. discriminate. }
  assert (Hchecked : forall (audio : list Qc) (t : Qc),
            AudioIO.normalize_audio_checked audio t
            = Some (AudioIO.normalize_audio audio t)).
  { intros audio t. destruct audio as [|a rest]; [reflexivity|].
    unfold AudioIO.normalize_audio_checked, AudioIO.normalize_audio.
    cbn [List.length Nat.eqb AudioIO.peak].
    set (current_max := np_max (np_absolute a) (map np_absolute rest)).
    change (@s_ltb Qc Qc_Scalar (of_Z 0) current_max)
      with (Qc_ltb 0 current_max).
    destruct (Qc_ltb 0 current_max) eqn:E; [|reflexivity].
    unfold checked_div, is_zero.
    change (@s_ltb Qc Qc_Scalar (of_Z 0) current_max)
      with (Qc_ltb 0 current_max).
    rewrite E. rewrite andb_false_r. reflexivity. }
  split; [reflexivity|]. split; [exact Hzeros|].
  split; [apply normalize_cases|]. split; [exact Hchecked|].
  intros audio t [-> | Hz]; [reflexivity|].
  rewrite Hchecked, (Hzeros audio t Hz). reflexivity.
Qed.

Lemma normalize_audio_degenerate_witness :
  AudioIO.normalize_audio [Q2Qc 0; Q2Qc 0; Q2Qc 0] (Q2Qc (9 # 10))
  = [Q2Qc 0; Q2Qc 0; Q2Qc 0]
  /\ AudioIO.normalize_audio_checked [Q2Qc 0; Q2Qc 0; Q2Qc 0]
                                     (Q2Qc (9 # 10))
     = Some [Q2Qc 0; Q2Qc 0; Q2Qc 0].
Proof.
  split.
  - apply (proj1 (proj2 normalize_audio_degenerate)).
    repeat constructor.
  - apply (proj2 (proj2 (proj2 (proj2 normalize_audio_degenerate)))).
    right. repeat constructor.
Defined.

Lemma normalize_noop (audio : list Qc) (t : Qc) :
  audio <> [] -> AudioIO.peak audio = t -> t <= 1 ->
  AudioIO.normalize_audio audio t = audio.
Proof.
  intros Hne Hpeak Hle.
  destruct (normalize_cases t Hne) as [[Hpos H] | [_ H]]; [|exact H].
  rewrite H, Hpeak. rewrite Hpeak in Hpos.
  assert (Hone : t / t = 1).
  { unfold Qcdiv. apply Qcmult_inv_r. intro E. rewrite E in Hpos.
    discriminate. }
  rewrite Hone. rewrite <- (map_id audio) at 2.
  apply map_ext_in. intros x Hin. rewrite Qcmult_1_r.
  apply peak_ge in Hin. rewrite Hpeak in Hin.
  apply abs_bounds in Hin. destruct Hin as [Hlo Hhi].
  apply clip_id; clear H Hone Hne Hpeak; qc2q; lra.
Qed.

(** C7.  Normalizing a non-empty buffer whose peak absolute amplitude
    already equals the target level returns it unchanged, for every target
    level within the documented range (at most 1) and in particular for the
    default 0.9; and every sample of every normalized buffer lies in
    [[-1, 1]]. *)
Theorem normalize_audio_at_target :
  (forall (audio : list Qc) (t : Qc),
      audio <> [] -> AudioIO.peak audio = t -> t <= 1 ->
      AudioIO.normalize_audio audio t = audio)
  /\ (forall audio : list Qc,
        audio <> [] -> AudioIO.peak audio = AudioIO.default_target_level ->
        AudioIO.normalize_audio audio AudioIO.default_target_level = audio)
  /\ (forall (audio : list Qc) (t x : Qc),
        In x (AudioIO.normalize_audio audio t) -> - (1) <= x /\ x <= 1).
Proof.
  split; [exact normalize_noop|]. split.
  - intros audio Hne Hpeak. apply normalize_noop; [exact Hne | exact Hpeak|].
    discriminate.
  - intros audio t x Hin.
    destruct audio as [|a rest]; [contradiction|].
    destruct (@normalize_cases (a :: rest) t) as [[_ H] | [Hz H]];
      [discriminate | |]; rewrite H in Hin.
    + apply in_map_iff in Hin. destruct Hin as [y [<- _]]. apply clip_range.
    + apply peak_ge in Hin. rewrite Hz in Hin.
      apply abs_bounds in Hin. clear H Hz. qc2q. lra.
Qed.

Lemma normalize_audio_at_target_witness :
  AudioIO.normalize_audio [Q2Qc (9 # 10); Q2Qc (- 1 # 2); Q2Qc (1 # 4)]
                          (Q2Qc (9 # 10))
  = [Q2Qc (9 # 10); Q2Qc (- 1 # 2); Q2Qc (1 # 4)].
Proof.
  apply (proj1 normalize_audio_at_target).
  - discriminate.
  - apply Qc_is_canon. reflexivity.
  - discriminate.
Defined.
End NormalizeClaims.

(** ** Broadcasting *)

Section Broadcast.
Context {T U V : Type}.

Lemma broadcast_index_in (n i : nat) : (i < n)%nat -> broadcast_index n i = i.
Proof.
  unfold broadcast_index. destruct (Nat.eqb_spec n 1); lia.
Qed.

Lemma broadcast_dim_same (n : nat) : broadcast_dim n n = Some n.
Proof. unfold broadcast_dim. rewrite Nat.eqb_refl. reflexivity. Qed.

Lemma broadcast_dim_unit (n : nat) : broadcast_dim n 1 = Some n.
Proof.
  unfold broadcast_dim.
  destruct (Nat.eqb_spec n 1) as [-> | _]; reflexivity.
Qed.

(** Operands of one shape: no stretching. *)
Lemma broadcast_same_shape (op : T -> U -> V) (a : matrix T) (b : matrix U) :
  rows b = rows a -> cols b = cols a ->
  exists out,
    broadcast op a b = Some out
    /\ rows out = rows a /\ cols out = cols a
    /\ forall i j, (i < rows a)%nat -> (j < cols a)%nat ->
                   item out i j = op (item a i j) (item b i j).
Proof.
  intros Hr Hc. unfold broadcast. rewrite Hr, Hc, !broadcast_dim_same.
  eexists. split; [reflexivity|]. split; [reflexivity|].
  split; [reflexivity|]. intros i j Hi Hj. cbn.
  rewrite !broadcast_index_in by assumption. reflexivity.
Qed.

(** A column on the right: it is repeated along the time axis. *)
Lemma broadcast_column (op : T -> U -> V) (a : matrix T) (b : matrix U) :
  rows b = rows a -> cols b = 1%nat ->
  exists out,
    broadcast op a b = Some out
    /\ rows out = rows a /\ cols out = cols a
    /\ forall i j, (i < rows a)%nat -> (j < cols a)%nat ->
                   item out i j = op (item a i j) (item b i 0%nat).
Proof.
  intros Hr Hc. unfold broadcast.
  rewrite Hr, Hc, broadcast_dim_same, broadcast_dim_unit.
  eexists. split; [reflexivity|]. split; [reflexivity|].
  split; [reflexivity|]. intros i j Hi Hj. cbn.
  rewrite !broadcast_index_in by assumption. reflexivity.
Qed.
End Broadcast.

(** ** Spectral subtraction ([STFTUtils.spectral_subtraction]) *)

Section SpectralSubtraction.
Context {C : Type} {L : Library Qc C}.
Local Open Scope Qc_scope.

(** C4.  For a spectral frame of shape [(bins, frames)], a per-bin noise
    profile (the column of shape [(bins, 1)] the estimator returns) and a
    spectral floor [>= 0], spectral subtraction succeeds, keeps the shape,
    and at every bin and frame returns the magnitude
    [max(magnitude - over_subtraction * noise_profile[bin],
         spectral_floor * magnitude)]
    combined with the unchanged phase of the input; that magnitude is at
    least [spectral_floor * magnitude] and never negative. *)
Theorem spectral_subtraction_floor
        (stft_matrix : matrix C) (noise_profile : ndarray Qc)
        (over_subtraction spectral_floor : Qc) :
  0 <= spectral_floor ->
  shape noise_profile = [rows stft_matrix; 1%nat] ->
  (forall z : C, 0 <= np_abs z) ->
  (forall m p : Qc, 0 <= m -> np_abs (np_scale m (np_exp_1j p)) = m) ->
  exists out,
    STFTUtils.spectral_subtraction stft_matrix noise_profile
                                   over_subtraction spectral_floor = Some out
    /\ rows out = rows stft_matrix /\ cols out = cols stft_matrix
    /\ forall i j, (i < rows stft_matrix)%nat -> (j < cols stft_matrix)%nat ->
         let magnitude := np_abs (item stft_matrix i j) in
         let phase := np_angle (item stft_matrix i j) in
         let noise := item (as_matrix noise_profile) i 0%nat in
         let subtracted := magnitude - over_subtraction * noise in
         let floor := spectral_floor * magnitude in
         let magnitude_clean := np_maximum subtracted floor in
         item out i j = np_scale magnitude_clean (np_exp_1j phase)
         /\ np_abs (item out i j) = magnitude_clean
         /\ (magnitude_clean = subtracted \/ magnitude_clean = floor)
         /\ subtracted <= magnitude_clean
         /\ floor <= magnitude_clean
         /\ 0 <= magnitude_clean.
Proof.
  intros Hfloor Hshape Habs Hpolar.
  destruct noise_profile as [v | noise]; [discriminate|].
  cbn in Hshape. injection Hshape as Hrows Hcols.
  unfold STFTUtils.spectral_subtraction, STFTUtils.get_magnitude_phase.
  cbn [as_matrix nd_map].
  destruct (@broadcast_column _ _ _ s_sub (mmap np_abs stft_matrix)
              (mmap (fun n => (over_subtraction * n)%S) noise))
    as (sub & -> & Hsr & Hsc & Hsub); [exact Hrows | exact Hcols |].
  cbn in Hsr, Hsc.
  destruct (@broadcast_same_shape _ _ _ np_maximum sub
              (mmap (fun m => (spectral_floor * m)%S)
                    (mmap np_abs stft_matrix)))
    as (clean & -> & Hcr & Hcc & Hclean);
    [cbn; congruence | cbn; congruence |].
  cbn in Hcr, Hcc.
  unfold STFTUtils.combine_magnitude_phase.
  destruct (@broadcast_same_shape _ _ _ np_scale clean
              (mmap np_exp_1j (mmap np_angle stft_matrix)))
    as (out & -> & Hor & Hoc & Hout);
    [cbn; congruence | cbn; congruence |].
  cbn in Hor, Hoc.
  exists out. split; [reflexivity|].
  split; [congruence|]. split; [congruence|].
  intros i j Hi Hj. cbn zeta.
  assert (Hval : item clean i j
                 = np_maximum
                     (np_abs (item stft_matrix i j)
                      - over_subtraction * item noise i 0%nat)
                     (spectral_floor * np_abs (item stft_matrix i j))).
  { rewrite Hclean by congruence. rewrite Hsub by (cbn; assumption).
    reflexivity. }
  assert (Hitem : item out i j
                  = np_scale (item clean i j)
                             (np_exp_1j (np_angle (item stft_matrix i j)))).
  { rewrite Hout by congruence. reflexivity. }
  rewrite Hitem, Hval. cbn [as_matrix].
  set (subtracted := np_abs (item stft_matrix i j)
                     - over_subtraction * item noise i 0%nat).
  set (floor := spectral_floor * np_abs (item stft_matrix i j)).
  assert (Hf0 : 0 <= floor) by (apply Qc_mult_nonneg; [exact Hfloor | apply Habs]).
  assert (Hge : floor <= np_maximum subtracted floor) by apply Qc_max_r.
  assert (Hnn : 0 <= np_maximum subtracted floor)
    by (apply Qcle_trans with floor; assumption).
  split; [reflexivity|]. split; [apply Hpolar; exact Hnn|].
  split; [cbn; destruct (Qc_ltb subtracted floor); auto|].
  split; [apply Qc_max_l|]. split; assumption.
Qed.
End SpectralSubtraction.

Section RealAxisFacts.
Local Open Scope Qc_scope.

Lemma RealAxis_abs_nonneg (z : Qc) : 0 <= RealAxis.abs z.
Proof. apply Qc_abs_nonneg. Qed.

Lemma RealAxis_polar (m p : Qc) :
  0 <= m -> RealAxis.abs (RealAxis.scale m (RealAxis.exp_1j p)) = m.
Proof.
  intro Hm. unfold RealAxis.abs, RealAxis.scale, RealAxis.exp_1j.
  destruct (Qc_eq_bool p 0).
  - rewrite Qcmult_1_r.
    assert (E : Qc_ltb m 0 = false) by (apply Qc_ltb_ge; exact Hm).
    rewrite E. reflexivity.
  - replace (m * - (1)) with (- m) by ring.
    destruct (Qc_ltb (- m) 0) eqn:E.
    + apply Qcopp_involutive.
    + apply Qc_ltb_ge in E. apply Qcle_antisym; qc2q; lra.
Qed.
End RealAxisFacts.

Lemma spectral_subtraction_floor_witness :
  exists out,
    STFTUtils.spectral_subtraction
      (L := RealAxis.library)
      (of_rows (RealAxis.z 0) [[RealAxis.z 3; RealAxis.z (-4)];
                               [RealAxis.z 1; RealAxis.z 2]])
      (Arr2 (of_rows (RealAxis.z 0) [[RealAxis.z 1]; [RealAxis.z 1]]))
      (RealAxis.q 3 2) (RealAxis.q 1 100) = Some out
    /\ rows out = 2%nat /\ cols out = 2%nat.
Proof.
  destruct (@spectral_subtraction_floor Qc RealAxis.library
              (of_rows (RealAxis.z 0) [[RealAxis.z 3; RealAxis.z (-4)];
                                       [RealAxis.z 1; RealAxis.z 2]])
              (Arr2 (of_rows (RealAxis.z 0) [[RealAxis.z 1]; [RealAxis.z 1]]))
              (RealAxis.q 3 2) (RealAxis.q 1 100))
    as (out & Hout & Hr & Hc & _).
  - discriminate.
  - reflexivity.
  - exact RealAxis_abs_nonneg.
  - exact RealAxis_polar.
  - exists out. split; [exact Hout|]. split; assumption.
Defined.

(** C4 (the claim as stated, with a 1-D noise profile of one entry per
    frequency bin).  NumPy lines a 1-D operand up with the last axis, the
    time frames: against a spectrum of 3 bins and 2 frames a profile of
    length 3 fails to broadcast, so there is no output at all; and against a
    spectrum of 2 bins and 2 frames the profile [[2, 0]] is subtracted by
    frame, so bin 0 of frame 1 keeps its magnitude 4 where the claim's
    formula, with [noise_profile[bin] = 2], gives 1. *)
Theorem spectral_subtraction_flat_profile :
  STFTUtils.spectral_subtraction
    (L := RealAxis.library)
    (of_rows (RealAxis.z 0) [[RealAxis.z 3; RealAxis.z 4];
                             [RealAxis.z 1; RealAxis.z 2];
                             [RealAxis.z 5; RealAxis.z 6]])
    (Arr1 (mkVector 3 (fun bin => nth bin [RealAxis.z 1; RealAxis.z 1;
                                           RealAxis.z 1] (RealAxis.z 0))))
    (RealAxis.q 3 2) (RealAxis.q 1 100)
  = None
  /\ exists out,
       STFTUtils.spectral_subtraction
         (L := RealAxis.library)
         (of_rows (RealAxis.z 0) [[RealAxis.z 3; RealAxis.z 4];
                                  [RealAxis.z 1; RealAxis.z 2]])
         (Arr1 (mkVector 2 (fun bin => nth bin [RealAxis.z 2; RealAxis.z 0]
                                           (RealAxis.z 0))))
         (RealAxis.q 3 2) (RealAxis.q 1 100)
       = Some out
       /\ RealAxis.abs (item out 0 1) = RealAxis.z 4
       /\ np_maximum (RealAxis.z 4 - RealAxis.q 3 2 * RealAxis.z 2)%Qc
                     (RealAxis.q 1 100 * RealAxis.z 4)%Qc
          = RealAxis.z 1.
Proof.
  split; [reflexivity|].
  eexists. split; [reflexivity|].
  split; apply Qc_is_canon; reflexivity.
Qed.

(** ** The noise profile ([STFTUtils.estimate_noise_profile]) *)

Section NoiseProfile.
Context {C : Type} {L : Library Qc C}.
Local Open Scope Qc_scope.

Lemma of_Z_pos (z : Z) : (0 < z)%Z -> 0 < of_Z z.
Proof.
  intro Hz. unfold of_Z. cbn. qc2q.
  unfold Qlt, inject_Z. cbn. lia.
Qed.

Lemma np_sum_nonneg_from (l : list Qc) (acc : Qc) :
  0 <= acc -> Forall (fun x => 0 <= x) l -> 0 <= fold_left Qcplus l acc.
Proof.
  revert acc. induction l as [|x l IH]; intros acc Hacc Hl; cbn.
  - exact Hacc.
  - inversion Hl; subst. apply IH; [|assumption].
    apply Qc_plus_nonneg; assumption.
Qed.

Lemma np_sum_nonneg (l : list Qc) :
  Forall (fun x => 0 <= x) l -> 0 <= np_sum l.
Proof.
  intro Hl. unfold np_sum. apply np_sum_nonneg_from; [|exact Hl].
  discriminate.
Qed.

Lemma np_mean_nonneg (l : list Qc) :
  l <> [] -> Forall (fun x => 0 <= x) l -> 0 <= np_mean l.
Proof.
  intros Hne Hl. unfold np_mean. apply Qc_div_nonneg.
  - apply np_sum_nonneg, Hl.
  - apply of_Z_pos. destruct l; [congruence | cbn; lia].
Qed.

Lemma row_list_length {T} (a : matrix T) (i : nat) :
  List.length (row_list a i) = cols a.
Proof. unfold row_list. rewrite length_map, length_seq. reflexivity. Qed.

(** The segment handed to the transform: the leading samples. *)
Lemma leading_segment {T} (audio : list T) (k : Z) :
  (0 <= k)%Z ->
  (if (Z.of_nat (List.length audio) <=? k)%Z then audio
   else py_slice_to k audio) = firstn (Z.to_nat k) audio.
Proof.
  intro Hk. destruct (Z.leb_spec (Z.of_nat (List.length audio)) k) as [H | H].
  - symmetry. apply firstn_all2. lia.
  - unfold py_slice_to, slice_stop.
    destruct (Z.ltb_spec k 0); [lia|].
    rewrite Nat.min_l by lia. reflexivity.
Qed.

(** C6 (amended).  The estimator hands the leading
    [int(noise_duration * sr)] samples (the whole buffer when it is shorter)
    to the transform, averages the magnitude of each bin over the time
    frames, and returns a 2-D column of shape [(n_fft/2 + 1, 1)] of
    non-negative reals, one row per frequency bin. *)
Theorem estimate_noise_profile_column
        (audio : list Qc) (sr : Z) (noise_duration : Qc)
        (n_fft hop_length : Z) (noise_stft : matrix C) :
  (0 <= py_int (noise_duration * of_Z sr)%S)%Z ->
  librosa_stft
    (firstn (Z.to_nat (py_int (noise_duration * of_Z sr)%S)) audio)
    n_fft hop_length "hann" true = inr noise_stft ->
  rows noise_stft = Z.to_nat (n_fft / 2 + 1) ->
  (0 < cols noise_stft)%nat ->
  (forall z : C, 0 <= np_abs z) ->
  exists profile : matrix Qc,
    STFTUtils.estimate_noise_profile audio sr noise_duration n_fft hop_length
    = ([CallStft n_fft hop_length], inr (Arr2 profile))
    /\ shape (Arr2 profile) = [Z.to_nat (n_fft / 2 + 1); 1%nat]
    /\ ndim (Arr2 profile) = 2%nat
    /\ forall bin, (bin < rows profile)%nat ->
         item profile bin 0%nat
         = np_mean (map (fun frame => np_abs (item noise_stft bin frame))
                        (seq 0 (cols noise_stft)))
         /\ 0 <= item profile bin 0%nat.
Proof.
  intros Hk Hstft Hrows Hcols Habs.
  unfold STFTUtils.estimate_noise_profile, STFTUtils.stft.
  rewrite (leading_segment audio Hk).
  change STFTUtils.DEFAULT_WINDOW with "hann". rewrite Hstft.
  eexists. split; [reflexivity|]. cbn [shape rows cols mmap].
  split; [rewrite Hrows; reflexivity|]. split; [reflexivity|].
  intros bin Hbin. cbn [item]. unfold row_list. cbn [cols item mmap].
  split; [reflexivity|].
  apply np_mean_nonneg.
  - intro E. apply (f_equal (@List.length _)) in E.
    rewrite length_map, length_seq in E. cbn in E. lia.
  - apply Forall_forall. intros x Hx. apply in_map_iff in Hx.
    destruct Hx as [frame [<- _]]. apply Habs.
Qed.
End NoiseProfile.

Lemma estimate_noise_profile_column_witness :
  exists profile : matrix Qc,
    STFTUtils.estimate_noise_profile
      (L := RealAxis.library)
      [RealAxis.z 1; RealAxis.z 2; RealAxis.z 3; RealAxis.z 4] 4
      (RealAxis.q 1 2) 2 1
    = ([CallStft 2 1], inr (Arr2 profile))
    /\ shape (Arr2 profile) = [2%nat; 1%nat].
Proof.
  destruct (@estimate_noise_profile_column Qc RealAxis.library
              [RealAxis.z 1; RealAxis.z 2; RealAxis.z 3; RealAxis.z 4] 4
              (RealAxis.q 1 2) 2 1
              (mkMatrix 2 3
                 (fun _ j => nth (j * 1) [RealAxis.z 1; RealAxis.z 2]
                                 (RealAxis.z 0))))
    as (profile & Hrun & Hshape & _).
  - vm_compute. discriminate.
  - vm_compute. reflexivity.
  - reflexivity.
  - cbn. lia.
  - exact RealAxis_abs_nonneg.
  - exists profile. split; assumption.
Defined.

(** C6, as stated, fails: the array the estimator returns is not 1-D.  On a
    four-sample buffer with [n_fft = 2] it has shape [(2, 1)]. *)
Lemma estimate_noise_profile_not_1d :
  match outcome (STFTUtils.estimate_noise_profile
                   (L := RealAxis.library)
                   [RealAxis.z 1; RealAxis.z 2; RealAxis.z 3; RealAxis.z 4] 4
                   (RealAxis.q 1 2) 2 1) with
  | inr noise_profile =>
      ndim noise_profile <> 1%nat /\ shape noise_profile = [2%nat; 1%nat]
  | inl _ => False
  end.
Proof.
  cbn. split; [discriminate | reflexivity].
Qed.

(** ** The Wiener filter ([Denoiser._wiener_filter]) *)

Section Wiener.
Context {C : Type} {L : Library Qc C}.
Local Open Scope Qc_scope.

(** The number of frames the noise PSD is averaged over. *)
Lemma wiener_noise_psd_elem (stft_matrix : matrix C) (noise_frames : Z)
      (bin : nat) :
  (0 <= noise_frames)%Z ->
  size (Denoiser.wiener_noise_psd stft_matrix noise_frames) = rows stft_matrix
  /\ elem (Denoiser.wiener_noise_psd stft_matrix noise_frames) bin
     = np_mean
         (map (fun frame => np_abs (item stft_matrix bin frame)
                            * np_abs (item stft_matrix bin frame))
              (seq 0 (if (noise_frames <? Z.of_nat (cols stft_matrix))%Z
                      then Z.to_nat noise_frames
                      else cols stft_matrix))).
Proof.
  intro Hk. unfold Denoiser.wiener_noise_psd.
  destruct (Z.ltb_spec noise_frames (Z.of_nat (cols stft_matrix))) as [H | H].
  - split; [reflexivity|]. cbn. unfold row_list. cbn.
    unfold slice_stop. destruct (Z.ltb_spec noise_frames 0); [lia|].
    rewrite Nat.min_l by lia. reflexivity.
  - split; reflexivity.
Qed.

Lemma mean_of_squares_nonneg (f : nat -> Qc) (n : nat) :
  (0 < n)%nat -> 0 <= np_mean (map (fun k => f k * f k) (seq 0 n)).
Proof.
  intro Hn. apply np_mean_nonneg.
  - intro E. apply (f_equal (@List.length _)) in E.
    rewrite length_map, length_seq in E. cbn in E. lia.
  - apply Forall_forall. intros x Hx. apply in_map_iff in Hx.
    destruct Hx as [k [<- _]]. apply Qc_square_nonneg.
Qed.

(** C5 (amended), in exact arithmetic.  With at least one frame to average
    the noise PSD over, the Wiener stage succeeds and, at every bin and
    frame, [signal_psd_est = max(magnitude^2 - noise_psd, 0)],
    [prior_snr = signal_psd_est / (noise_psd + 1e-10)], the weight is
    [g = prior_snr / (prior_snr + 1)] with [0 <= g < 1], and the output is
    [magnitude * g] combined with the unchanged phase of the input. *)
Theorem wiener_gain_exact (stft_matrix : matrix C) (noise_frames : Z) :
  (0 < noise_frames)%Z ->
  (0 < cols stft_matrix)%nat ->
  exists weights out,
    Denoiser.wiener_weights
      (mmap np_abs stft_matrix)
      (Denoiser.wiener_noise_psd stft_matrix noise_frames) = Some weights
    /\ Denoiser.wiener_clean stft_matrix noise_frames = Some out
    /\ rows out = rows stft_matrix /\ cols out = cols stft_matrix
    /\ forall bin frame,
         (bin < rows stft_matrix)%nat -> (frame < cols stft_matrix)%nat ->
         let magnitude := np_abs (item stft_matrix bin frame) in
         let phase := np_angle (item stft_matrix bin frame) in
         let noise_psd :=
           elem (Denoiser.wiener_noise_psd stft_matrix noise_frames) bin in
         let signal_psd_est :=
           np_maximum (magnitude * magnitude - noise_psd) (of_Z 0) in
         let prior_snr :=
           signal_psd_est / (noise_psd + of_Q (1 # 10000000000)) in
         let g := prior_snr / (prior_snr + 1) in
         0 <= noise_psd
         /\ item weights bin frame = g
         /\ 0 <= g /\ g < 1
         /\ item out bin frame = np_scale (magnitude * g) (np_exp_1j phase).
Proof.
  intros Hk Hcols.
  destruct (@wiener_noise_psd_elem stft_matrix noise_frames 0%nat
              (Z.lt_le_incl _ _ Hk)) as [Hsize _].
  unfold Denoiser.wiener_clean, STFTUtils.get_magnitude_phase,
    Denoiser.wiener_weights.
  set (psd := Denoiser.wiener_noise_psd stft_matrix noise_frames) in *.
  destruct (@broadcast_column _ _ _ s_sub
              (mmap (fun m => (m * m)%S) (mmap np_abs stft_matrix))
              (newaxis_col psd))
    as (diff & -> & Hdr & Hdc & Hdiff); [exact Hsize | reflexivity |].
  cbn in Hdr, Hdc.
  destruct (@broadcast_column _ _ _ s_div
              (mmap (fun d => np_maximum d (of_Z 0)) diff)
              (mmap (fun n => (n + of_Q (1 # 10000000000))%S)
                    (newaxis_col psd)))
    as (snr & -> & Hsr & Hsc & Hsnr);
    [cbn; congruence | reflexivity |].
  cbn in Hsr, Hsc.
  destruct (@broadcast_same_shape _ _ _ s_div snr
              (mmap (fun s => (s + of_Z 1)%S) snr))
    as (weights & -> & Hwr & Hwc & Hw); [reflexivity | reflexivity |].
  destruct (@broadcast_same_shape _ _ _ s_mul
              (mmap np_abs stft_matrix) weights)
    as (clean & -> & Hcr & Hcc & Hclean);
    [cbn; congruence | cbn; congruence |].
  cbn in Hcr, Hcc.
  unfold STFTUtils.combine_magnitude_phase.
  destruct (@broadcast_same_shape _ _ _ np_scale clean
              (mmap np_exp_1j (mmap np_angle stft_matrix)))
    as (out & -> & Hor & Hoc & Hout);
    [cbn; congruence | cbn; congruence |].
  exists weights, out. split; [reflexivity|]. split; [reflexivity|].
  split; [congruence|]. split; [congruence|].
  intros bin frame Hbin Hframe. cbn zeta.
  assert (Hn : 0 <= elem psd bin).
  { unfold psd.
    destruct (@wiener_noise_psd_elem stft_matrix noise_frames bin
                (Z.lt_le_incl _ _ Hk)) as [_ ->].
    apply (mean_of_squares_nonneg
             (fun frame => np_abs (item stft_matrix bin frame))).
    destruct (noise_frames <? Z.of_nat (cols stft_matrix))%Z; lia. }
  assert (Hweight :
            item weights bin frame
            = (np_maximum (np_abs (item stft_matrix bin frame)
                           * np_abs (item stft_matrix bin frame)
                           - elem psd bin) (of_Z 0)
               / (elem psd bin + of_Q (1 # 10000000000)))
              / (np_maximum (np_abs (item stft_matrix bin frame)
                             * np_abs (item stft_matrix bin frame)
                             - elem psd bin) (of_Z 0)
                 / (elem psd bin + of_Q (1 # 10000000000)) + 1)).
  { rewrite Hw by congruence. cbn [mmap item].
    rewrite Hsnr by (cbn; congruence). cbn [mmap item newaxis_col].
    rewrite Hdiff by (cbn; assumption). reflexivity. }
  assert (Hitem : item out bin frame
                  = np_scale (np_abs (item stft_matrix bin frame)
                              * item weights bin frame)
                             (np_exp_1j (np_angle (item stft_matrix bin frame)))).
  { rewrite Hout by congruence. cbn [mmap item].
    rewrite Hclean by (cbn; assumption). reflexivity. }
  rewrite Hitem, Hweight.
  split; [exact Hn|]. split; [reflexivity|].
  assert (Hsnr0 :
            0 <= np_maximum (np_abs (item stft_matrix bin frame)
                             * np_abs (item stft_matrix bin frame)
                             - elem psd bin) (of_Z 0)
                 / (elem psd bin + of_Q (1 # 10000000000))).
  { apply Qc_div_nonneg.
    - apply Qc_max_r.
    - apply Qc_plus_pos; [exact Hn | reflexivity]. }
  destruct (Qc_ratio_unit Hsnr0) as [Hg0 Hg1].
  split; [exact Hg0|]. split; [exact Hg1 | reflexivity].
Qed.
End Wiener.

Lemma wiener_gain_exact_witness :
  exists weights out,
    Denoiser.wiener_weights
      (mmap RealAxis.abs
            (of_rows (RealAxis.z 0) [[RealAxis.z 0; RealAxis.z 3];
                                     [RealAxis.z 1; RealAxis.z (-1)]]))
      (Denoiser.wiener_noise_psd
         (L := RealAxis.library)
         (of_rows (RealAxis.z 0) [[RealAxis.z 0; RealAxis.z 3];
                                  [RealAxis.z 1; RealAxis.z (-1)]]) 1)
    = Some weights
    /\ Denoiser.wiener_clean
         (L := RealAxis.library)
         (of_rows (RealAxis.z 0) [[RealAxis.z 0; RealAxis.z 3];
                                  [RealAxis.z 1; RealAxis.z (-1)]]) 1
       = Some out.
Proof.
  destruct (@wiener_gain_exact Qc RealAxis.library
              (of_rows (RealAxis.z 0) [[RealAxis.z 0; RealAxis.z 3];
                                       [RealAxis.z 1; RealAxis.z (-1)]]) 1)
    as (weights & out & Hw & Hout & _).
  - reflexivity.
  - cbn. lia.
  - exists weights, out. split; assumption.
Defined.

(** C5, as stated, fails in binary64.  Take the spectrum of a silent
    lead-in followed by a loud frame (one bin; magnitudes 0 and 1000) with
    one noise frame: the noise PSD is 0, [prior_snr] of the loud frame is
    [1e16], [prior_snr + 1] rounds back to [prior_snr], the weight is
    exactly 1, not below it, and the bin leaves the filter with its
    magnitude 1000.  With no noise frame at all ([noise_frames = 0]) the
    noise PSD is the mean of an empty slice and the weight is [nan]. *)
Theorem wiener_gain_reaches_one :
  let stft_matrix := Binary64.silence_then_loud in
  let magnitude :=
    fst (STFTUtils.get_magnitude_phase (L := Binary64.library) stft_matrix) in
  let noise_psd (noise_frames : Z) :=
    Denoiser.wiener_noise_psd (L := Binary64.library) stft_matrix
                              noise_frames in
  PrimFloat.eqb (elem (noise_psd 1) 0) (float_of_Z 0) = true
  /\ match Denoiser.wiener_weights magnitude (noise_psd 1) with
     | Some weights =>
         PrimFloat.ltb (item weights 0 1) (float_of_Z 1) = false
         /\ PrimFloat.eqb (item weights 0 1) (float_of_Z 1) = true
     | None => False
     end
  /\ match Denoiser.wiener_clean (L := Binary64.library) stft_matrix 1 with
     | Some out =>
         PrimFloat.eqb (item out 0 1) (float_of_Z 1000) = true
     | None => False
     end
  /\ match Denoiser.wiener_weights magnitude (noise_psd 0) with
     | Some weights => PrimFloat.is_nan (item weights 0 1) = true
     | None => False
     end.
Proof.
  vm_compute. repeat split; reflexivity.
Qed.

(** ** The monad *)

Section MonadFacts.
Context {A C : Type} {L : Library A C}.

Lemma bind_inr {X Y} (c : M X) (k : X -> M Y) (x : X) :
  outcome c = inr x ->
  bind c k = (trace c ++ trace (k x), outcome (k x)).
Proof.
  destruct c as [t [e | x']]; cbn; intro H; [discriminate|].
  injection H as ->. destruct (k x). reflexivity.
Qed.




End MonadFacts.

(** ** The band-pass stage ([Denoiser._bandpass_filter]) *)

Section Bandpass.
Context {C : Type} {L : Library Qc C}.
Local Open Scope Qc_scope.


(** Past the guard, the stage is the Butterworth design, the zero-phase
    filter, and the notch unless its guard holds. *)
Lemma bandpass_past_guard (self : Denoiser.denoiser) (audio : list Qc)
      (sr : Z) (lowcut highcut : option Qc) (order : Z) (voice_type : string)
      (l h : Qc) :
  Denoiser.effective_band sr lowcut highcut voice_type = (l, h) ->
  l < h ->
  Denoiser._bandpass_filter self audio sr lowcut highcut order voice_type
  = (ba <- extern (CallButter order (l / (of_Q (1 # 2) * of_Z sr))
                              (h / (of_Q (1 # 2) * of_Z sr)))
                  (scipy_butter order (l / (of_Q (1 # 2) * of_Z sr))
                                (h / (of_Q (1 # 2) * of_Z sr))) ;;
     audio_filtered <- extern CallFiltfilt (scipy_filtfilt ba audio) ;;
     if Denoiser.notch_skipped l h then ret audio_filtered
     else Denoiser._notch_filter self audio_filtered sr (of_Z 50) (of_Z 30)).
Proof.
  intros Hband Hlt. unfold Denoiser._bandpass_filter. rewrite Hband.
  change ((h <=? l)%S) with (Qc_leb h l).
  apply Qc_leb_gt in Hlt. rewrite Hlt. reflexivity.
Qed.

Lemma bandpass_never_invalid_past_guard (self : Denoiser.denoiser)
      (audio : list Qc) (sr : Z) (lowcut highcut : option Qc) (order : Z)
      (voice_type : string) (l h l' h' : Qc) :
  Denoiser.effective_band sr lowcut highcut voice_type = (l, h) ->
  l < h ->
  outcome (Denoiser._bandpass_filter self audio sr lowcut highcut order
                                     voice_type)
  <> inl (InvalidBand l' h').
Proof.
  intros Hband Hlt. rewrite (@bandpass_past_guard self audio sr lowcut highcut order voice_type
             l h Hband Hlt).
  unfold Denoiser._notch_filter, extern, bind, ret, outcome.
  destruct (scipy_butter _ _ _) as [e | ba]; cbn; [discriminate|].
  destruct (scipy_filtfilt ba audio) as [e | filtered]; cbn; [discriminate|].
  destruct (Denoiser.notch_skipped l h); cbn; [discriminate|].
  destruct (scipy_iirnotch _ _) as [e | nba]; cbn; [discriminate|].
  destruct (scipy_filtfilt nba filtered) as [e | out]; cbn; discriminate.
Qed.

Lemma bandpass_raises (self : Denoiser.denoiser) (audio : list Qc) (sr : Z)
      (lowcut highcut : option Qc) (order : Z) (voice_type : string)
      (l h : Qc) :
  Denoiser.effective_band sr lowcut highcut voice_type = (l, h) ->
  h <= l ->
  Denoiser._bandpass_filter self audio sr lowcut highcut order voice_type
  = ([], inl (InvalidBand l h)).
Proof.
  intros Hband Hle. unfold Denoiser._bandpass_filter. rewrite Hband.
  change ((h <=? l)%S) with (Qc_leb h l).
  apply Qc_leb_le in Hle. rewrite Hle. reflexivity.
Qed.

(** C2.  Both cutoffs are clamped to [min(cutoff, sr/2 - 1)]; the call
    raises [InvalidBand] exactly when the clamped low cutoff is at least the
    clamped high one, the exception carries the two clamped values, and no
    external routine has been called by then.  In particular
    [lowcut = 9000], [highcut = 8000] at 16 kHz raises it. *)
Theorem bandpass_invalid_band
        (self : Denoiser.denoiser) (audio : list Qc) (sr : Z)
        (lowcut highcut : Qc) (order : Z) (voice_type : string) :
  let nyquist := of_Q (1 # 2) * of_Z sr in
  let l := py_min lowcut (nyquist - 1) in
  let h := py_min highcut (nyquist - 1) in
  let run := Denoiser._bandpass_filter self audio sr (Some lowcut)
                                       (Some highcut) order voice_type in
  Denoiser.effective_band sr (Some lowcut) (Some highcut) voice_type = (l, h)
  /\ (h <= l <-> exists l' h', outcome run = inl (InvalidBand l' h'))
  /\ (h <= l -> run = ([], inl (InvalidBand l h)))
  /\ Denoiser._bandpass_filter self audio 16000 (Some (of_Z 9000))
                               (Some (of_Z 8000)) order voice_type
     = ([], inl (InvalidBand (of_Z 7999) (of_Z 7999))).
Proof.
  cbn zeta.
  set (l := py_min lowcut (of_Q (1 # 2) * of_Z sr - 1)).
  set (h := py_min highcut (of_Q (1 # 2) * of_Z sr - 1)).
  assert (Hband : Denoiser.effective_band sr (Some lowcut) (Some highcut)
                                          voice_type = (l, h))
    by reflexivity.
  split; [exact Hband|]. split; [|split].
  - split.
    + intro Hle. exists l, h.
      rewrite (@bandpass_raises self audio sr (Some lowcut) (Some highcut)
                 order voice_type l h Hband Hle).
      reflexivity.
    + intros (l' & h' & Hout).
      destruct (Qclt_le_dec l h) as [Hlt | Hle]; [|exact Hle].
      exfalso.
      exact (@bandpass_never_invalid_past_guard self audio sr (Some lowcut)
               (Some highcut) order voice_type l h l' h' Hband Hlt Hout).
  - apply bandpass_raises. exact Hband.
  - apply bandpass_raises; [|discriminate].
    unfold Denoiser.effective_band.
    f_equal; apply Qc_is_canon; reflexivity.
Qed.

End Bandpass.

Lemma bandpass_invalid_band_witness :
  Denoiser._bandpass_filter
    (L := RealAxis.library) RealAxis.self
    [RealAxis.z 1; RealAxis.z 2] 8000
    (Some (RealAxis.z 5000)) (Some (RealAxis.z 300)) 5 "male"
  = ([], inl (InvalidBand
                (py_min (RealAxis.z 5000) (of_Q (1 # 2) * of_Z 8000 - 1)%Qc)
                (py_min (RealAxis.z 300) (of_Q (1 # 2) * of_Z 8000 - 1)%Qc))).
Proof.
  apply (proj1 (proj2 (proj2
           (@bandpass_invalid_band Qc RealAxis.library RealAxis.self
              [RealAxis.z 1; RealAxis.z 2] 8000
              (RealAxis.z 5000) (RealAxis.z 300) 5 "male")))).
  discriminate.
Defined.


(** ** The notch guard *)

Section Notch.
Context {C : Type} {L : Library Qc C}.
Local Open Scope Qc_scope.

Lemma notch_skipped_spec (l h : Qc) :
  Denoiser.notch_skipped l h = true
  <-> (of_Z 45 <= l /\ l <= of_Z 55) \/ (of_Z 45 <= h /\ h <= of_Z 55).
Proof.
  unfold Denoiser.notch_skipped.
  change (@s_leb Qc Qc_Scalar) with Qc_leb.
  rewrite orb_true_iff, !andb_true_iff, !Qc_leb_le. reflexivity.
Qed.

(** A band that stays clear of 45-55 Hz is notched. *)
Lemma notch_runs_off_band (l h : Qc) :
  l < h -> spec_band_overlaps_hum l h = false ->
  Denoiser.notch_skipped l h = false.
Proof.
  intros Hlt Hoff. apply not_true_is_false. intro Hskip.
  apply notch_skipped_spec in Hskip.
  unfold spec_band_overlaps_hum in Hoff.
  change (@s_leb Qc Qc_Scalar) with Qc_leb in Hoff.
  apply andb_false_iff in Hoff.
  destruct Hoff as [Hoff | Hoff]; apply Qc_leb_gt in Hoff;
    destruct Hskip as [[H1 H2] | [H1 H2]]; cbn in *; qc2q; lra.
Qed.

(** A band that contains the whole 45-55 Hz region is notched as well. *)
Lemma notch_runs_across_band (l h : Qc) :
  l < of_Z 45 -> of_Z 55 < h ->
  spec_band_overlaps_hum l h = true /\ Denoiser.notch_skipped l h = false.
Proof.
  intros Hl Hh. split.
  - unfold spec_band_overlaps_hum.
    change (@s_leb Qc Qc_Scalar) with Qc_leb.
    apply andb_true_iff. split; apply Qc_leb_le; cbn in *; qc2q; lra.
  - apply not_true_is_false. intro Hskip. apply notch_skipped_spec in Hskip.
    destruct Hskip as [[H1 H2] | [H1 H2]]; cbn in *; qc2q; lra.
Qed.

Lemma notch_filter_trace (self : Denoiser.denoiser) (audio : list Qc)
      (sr : Z) (freq Q : Qc) :
  exists rest,
    trace (Denoiser._notch_filter self audio sr freq Q)
    = CallIirnotch (freq / (of_Z sr / of_Z 2)) Q :: rest.
Proof.
  unfold Denoiser._notch_filter, extern, bind, trace.
  destruct (scipy_iirnotch _ _) as [e | nba]; cbn; [eexists; reflexivity|].
  destruct (scipy_filtfilt nba audio); cbn; eexists; reflexivity.
Qed.

(** Once the two filters of the band-pass have succeeded, the notch stage
    runs exactly when its guard fails, and it runs after them. *)
Lemma bandpass_notch_trace (self : Denoiser.denoiser) (audio : list Qc)
      (sr : Z) (lowcut highcut : option Qc) (order : Z) (voice_type : string)
      (l h : Qc) (ba : coeffs) (filtered : list Qc) :
  Denoiser.effective_band sr lowcut highcut voice_type = (l, h) ->
  l < h ->
  scipy_butter order (l / (of_Q (1 # 2) * of_Z sr))
               (h / (of_Q (1 # 2) * of_Z sr)) = inr ba ->
  scipy_filtfilt ba audio = inr filtered ->
  let run := Denoiser._bandpass_filter self audio sr lowcut highcut order
                                       voice_type in
  let notch := Denoiser._notch_filter self filtered sr (of_Z 50) (of_Z 30) in
  let filters := [CallButter order (l / (of_Q (1 # 2) * of_Z sr))
                             (h / (of_Q (1 # 2) * of_Z sr)); CallFiltfilt] in
  notch_ran run = negb (Denoiser.notch_skipped l h)
  /\ (Denoiser.notch_skipped l h = true -> run = (filters, inr filtered))
  /\ (Denoiser.notch_skipped l h = false ->
      run = (filters ++ trace notch, outcome notch)).
Proof.
  intros Hband Hlt Hbutter Hfilt. cbn zeta.
  rewrite (@bandpass_past_guard _ _ self audio sr lowcut highcut order
             voice_type l h Hband Hlt).
  rewrite Hbutter. cbn [extern bind]. rewrite Hfilt. cbn [extern bind].
  destruct (Denoiser.notch_skipped l h).
  - cbn. split; [reflexivity|].
    split; [intros _; reflexivity | discriminate].
  - destruct (notch_filter_trace self filtered sr (of_Z 50) (of_Z 30))
      as [rest Hrest].
    destruct (Denoiser._notch_filter self filtered sr (of_Z 50) (of_Z 30))
      as [tn rn].
    cbn in Hrest. subst tn. cbn.
    split; [reflexivity|].
    split; [discriminate | intros _; reflexivity].
Qed.
End Notch.

(** C1 (the code at the failing input).  On a buffer of 40 samples, longer
    than the padding of either filter, with [lowcut = 40] and
    [highcut = 8000] at 16 kHz, the effective pass-band is [[40, 7999]],
    which contains the whole 45-55 Hz region; the notch stage runs all the
    same, since the guard looks at the two cutoffs only: after the
    Butterworth design and its zero-phase filter, the 50 Hz notch is
    designed and applied, and the result of the run is the result of that
    notch filter. *)
Theorem bandpass_notch_inside_band :
  let audio := RealAxis.alternating 40 in
  let run :=
    Denoiser._bandpass_filter
      (L := RealAxis.library) RealAxis.self audio 16000
      (Some (RealAxis.z 40)) (Some (RealAxis.z 8000)) 5 "broadband" in
  let notch :=
    Denoiser._notch_filter
      (L := RealAxis.library) RealAxis.self audio 16000
      (RealAxis.z 50) (RealAxis.z 30) in
  Denoiser.effective_band 16000 (Some (RealAxis.z 40)) (Some (RealAxis.z 8000))
                          "broadband"
  = (RealAxis.z 40, RealAxis.z 7999)
  /\ spec_band_overlaps_hum (RealAxis.z 40) (RealAxis.z 7999) = true
  /\ Denoiser.notch_skipped (RealAxis.z 40) (RealAxis.z 7999) = false
  /\ notch_ran run = true
  /\ trace run
     = [CallButter 5 (RealAxis.q 1 200) (RealAxis.q 7999 8000); CallFiltfilt;
        CallIirnotch (RealAxis.q 1 160) (RealAxis.z 30); CallFiltfilt]
  /\ trace run
     = [CallButter 5 (RealAxis.q 1 200) (RealAxis.q 7999 8000); CallFiltfilt]
       ++ trace notch
  /\ outcome run = outcome notch
  /\ outcome run = inr audio.
Proof.
  cbn zeta. split.
  - unfold Denoiser.effective_band. f_equal; apply Qc_is_canon; reflexivity.
  - repeat split; vm_compute;
      repeat (f_equal; try (apply Qc_is_canon; reflexivity)).
Qed.

(** ** The adaptive method ([Denoiser._adaptive_denoise]) *)

Section Adaptive.
Context {C : Type} {L : Library Qc C}.
Local Open Scope Qc_scope.



End Adaptive.


(** ** The noise-level heuristic ([Denoiser._estimate_noise_level]) *)

Section NoiseLevel.
Context {C : Type} {L : Library Qc C}.
Local Open Scope Qc_scope.





End NoiseLevel.

Section NoiseLevelRuns.
Context {C : Type}.
Local Open Scope Qc_scope.

End NoiseLevelRuns.



(** ** The entry point ([Denoiser.denoise]) *)

Section Denoise.
Context {A C : Type} {S : Scalar A} {L : Library A C}.

(** C9.  Given a sample array whose (non-zero) sample rate differs from the
    target rate of the denoiser, the first external call of [denoise] is the
    resampling to the target rate; when the call succeeds, the method has run
    on the resampled samples at the target rate, and the [sample_rate] field
    of the result is the target rate, not the rate the caller passed. *)
Theorem denoise_resamples_to_target
        (self : Denoiser.denoiser) (data : list A) (sr : Z)
        (method : option string) (kw : Denoiser.kwargs) :
  sr <> 0 ->
  sr <> Denoiser.target_sr self ->
  let target := Denoiser.target_sr self in
  let run := Denoiser.denoise self (Denoiser.Samples data) (Some sr) method
                              kw in
  (exists rest, trace run = CallResample sr target :: rest)
  /\ forall result,
       outcome run = inr result ->
       Denoiser.sample_rate result = target
       /\ exists resampled denoised,
            librosa_resample data sr target = inr resampled
            /\ outcome (Denoiser.run_method
                          self
                          (Denoiser.method_or method
                                              (Denoiser.default_method self))
                          resampled target kw) = inr denoised
            /\ Denoiser.original_shape result = List.length resampled
            /\ outcome (AudioIO.trim_silence
                          (AudioIO.normalize_audio
                             denoised AudioIO.default_target_level)
                          target 30 2048 512)
               = inr (Denoiser.audio result).
Proof.
  intros Hnz Hne. cbn zeta.
  unfold Denoiser.denoise, Denoiser.prepare_input, Denoiser.sr_or.
  apply Z.eqb_neq in Hnz. apply Z.eqb_neq in Hne. rewrite Hnz, Hne.
  cbn [negb]. unfold AudioIO.resample_audio. rewrite Hne.
  destruct (librosa_resample data sr (Denoiser.target_sr self))
    as [e | resampled] eqn:Hres.
  - cbn. split; [eexists; reflexivity|]. intros result H. discriminate.
  - cbn [extern bind ret app].
    destruct (Denoiser.run_method
                self
                (Denoiser.method_or method (Denoiser.default_method self))
                resampled (Denoiser.target_sr self) kw)
      as [tm [em | denoised]] eqn:Hrun.
    + cbn. split; [eexists; reflexivity|]. intros result H. discriminate.
    + cbn [bind]. unfold AudioIO.trim_silence, extern.
      destruct (librosa_trim
                  (AudioIO.normalize_audio denoised
                                           AudioIO.default_target_level)
                  30 2048 512) as [et | trimmed] eqn:Htrim.
      * cbn. split; [eexists; reflexivity|]. intros result H. discriminate.
      * destruct (Denoiser.verbose self); cbn;
          (split; [eexists; reflexivity|]);
          intros result H; injection H as <-; cbn;
          (split; [reflexivity|]);
          exists resampled, denoised;
          rewrite Hrun, Htrim; repeat split; reflexivity.
Qed.
End Denoise.

Lemma denoise_resamples_to_target_witness :
  match outcome (Denoiser.denoise
                   (L := RealAxis.library) RealAxis.self
                   (Denoiser.Samples (RealAxis.alternating 40))
                   (Some 8000) (Some "bandpass") Denoiser.no_kwargs) with
  | inr result => Denoiser.sample_rate result = 16000
  | inl _ => False
  end.
Proof.
  destruct (@denoise_resamples_to_target
              Qc Qc Qc_Scalar RealAxis.library RealAxis.self
              (RealAxis.alternating 40) 8000
              (Some "bandpass") Denoiser.no_kwargs)
    as [_ Hresult].
  - discriminate.
  - discriminate.
  - destruct (outcome (Denoiser.denoise
                         (L := RealAxis.library) RealAxis.self
                         (Denoiser.Samples (RealAxis.alternating 40))
                         (Some 8000) (Some "bandpass") Denoiser.no_kwargs))
      as [e | result] eqn:E.
    + vm_compute in E. discriminate.
    + exact (proj1 (Hresult result eq_refl)).
Defined.

(* ================================================================== *)
(** * Further properties of the engine *)

(** ** Normalization: what it establishes and how it composes *)

Section NormalizeMore.
Local Open Scope Qc_scope.

Let maxQc (a b : Qc) : Qc := if Qc_ltb a b then b else a.

Lemma abs_scale (x c : Qc) :
  0 <= c -> np_absolute (x * c) = np_absolute x * c.
Proof.
  intro Hc. cbn.
  destruct (Qcle_lt_or_eq _ _ Hc) as [Hpos | Hzero]; [|subst c].
  - destruct (Qc_ltb x (Q2Qc 0)) eqn:E.
    + apply Qc_ltb_lt in E.
      assert (H : Qc_ltb (x * c) (Q2Qc 0) = true).
      { apply Qc_ltb_lt. rewrite <- (Qcmult_0_l c).
        apply Qcmult_lt_compat_r; assumption. }
      rewrite H. ring.
    + apply Qc_ltb_ge in E.
      assert (H : Qc_ltb (x * c) (Q2Qc 0) = false).
      { apply Qc_ltb_ge. apply Qc_mult_nonneg; [exact E | exact Hc]. }
      rewrite H. reflexivity.
  - rewrite !Qcmult_0_r.
    destruct (Qc_ltb x (Q2Qc 0)); rewrite ?Qcmult_0_r; reflexivity.
Qed.

Lemma max_scale (a b c : Qc) :
  0 <= c -> maxQc (a * c) (b * c) = maxQc a b * c.
Proof.
  intro Hc. unfold maxQc.
  destruct (Qcle_lt_or_eq _ _ Hc) as [Hpos | Hzero]; [|subst c].
  - destruct (Qc_ltb a b) eqn:E.
    + apply Qc_ltb_lt in E.
      assert (H : Qc_ltb (a * c) (b * c) = true)
        by (apply Qc_ltb_lt, Qcmult_lt_compat_r; assumption).
      rewrite H. reflexivity.
    + apply Qc_ltb_ge in E.
      assert (H : Qc_ltb (a * c) (b * c) = false)
        by (apply Qc_ltb_ge, Qcmult_le_compat_r; assumption).
      rewrite H. reflexivity.
  - rewrite !Qcmult_0_r. reflexivity.
Qed.

Lemma fold_max_scale (l : list Qc) (x c : Qc) :
  0 <= c ->
  fold_left maxQc (map (fun y => y * c) l) (x * c)
  = fold_left maxQc l x * c.
Proof.
  intro Hc. revert x. induction l as [|y l IH]; intro x; cbn.
  - reflexivity.
  - rewrite (max_scale x y Hc). apply IH.
Qed.

Lemma peak_scale (audio : list Qc) (c : Qc) :
  0 <= c ->
  AudioIO.peak (map (fun x => x * c) audio) = AudioIO.peak audio * c.
Proof.
  intro Hc. destruct audio as [|a rest].
  - cbn. symmetry. apply Qcmult_0_l.
  - unfold AudioIO.peak, np_max. cbn [map].
    rewrite (abs_scale a Hc), map_map.
    rewrite (map_ext (fun x => np_absolute (x * c))
                     (fun x => np_absolute x * c))
      by (intro x; apply abs_scale; exact Hc).
    rewrite <- (map_map np_absolute (fun y => y * c)).
    apply (fold_max_scale (map np_absolute rest) (np_absolute a) Hc).
Qed.

Lemma peak_zero_all (audio : list Qc) :
  AudioIO.peak audio = 0 -> Forall (fun x => x = 0) audio.
Proof.
  intro Hz. apply Forall_forall. intros x Hin.
  apply peak_ge in Hin. rewrite Hz in Hin. apply abs_bounds in Hin.
  destruct Hin as [Hlo Hhi]. apply Qcle_antisym; qc2q; lra.
Qed.

(** On a buffer that is not silent and a target within [[0, 1]], the result
    is the buffer scaled by [target / peak]: the clip changes nothing. *)
Lemma normalize_is_scaling (audio : list Qc) (t : Qc) :
  0 < AudioIO.peak audio -> 0 <= t -> t <= 1 ->
  AudioIO.normalize_audio audio t
  = map (fun x => x * (t / AudioIO.peak audio)) audio.
Proof.
  intros Hpos Ht0 Ht1.
  assert (Hne : audio <> []) by (intros ->; discriminate).
  destruct (normalize_cases t Hne) as [[_ H] | [Hz _]];
    [|rewrite Hz in Hpos; discriminate].
  rewrite H. apply map_ext_in. intros x Hin.
  set (m := AudioIO.peak audio) in *.
  assert (Hc : 0 <= t / m)
    by (apply Qc_div_nonneg; assumption).
  assert (Hm : m <> 0) by (intro E; rewrite E in Hpos; discriminate).
  assert (Habs : np_absolute (x * (t / m)) <= t).
  { rewrite (abs_scale x Hc).
    apply Qcle_trans with (m * (t / m)).
    - apply Qcmult_le_compat_r; [apply peak_ge, Hin | exact Hc].
    - rewrite Qcmult_div_r by exact Hm. apply Qcle_refl. }
  apply abs_bounds in Habs. destruct Habs as [Hlo Hhi].
  apply clip_id; clear H Hc Hm Hin Hne Hpos; qc2q; lra.
Qed.

Lemma normalize_range (audio : list Qc) (t x : Qc) :
  In x (AudioIO.normalize_audio audio t) -> - (1) <= x /\ x <= 1.
Proof.
  intro Hin. destruct audio as [|a rest]; [contradiction|].
  destruct (@normalize_cases (a :: rest) t) as [[_ H] | [Hz H]];
    [discriminate | |]; rewrite H in Hin.
  - apply in_map_iff in Hin. destruct Hin as [y [<- _]]. apply clip_range.
  - apply peak_ge in Hin. rewrite Hz in Hin.
    apply abs_bounds in Hin. clear H Hz. qc2q. lra.
Qed.

(** X1.  What normalization is for: on a buffer that is not silent, with a
    target level within [[0, 1]], the peak absolute amplitude of the result
    is exactly the target level, and the length is kept. *)
Theorem normalize_audio_reaches_target (audio : list Qc) (t : Qc) :
  0 < AudioIO.peak audio -> 0 <= t -> t <= 1 ->
  AudioIO.peak (AudioIO.normalize_audio audio t) = t
  /\ List.length (AudioIO.normalize_audio audio t) = List.length audio.
Proof.
  intros Hpos Ht0 Ht1.
  rewrite (@normalize_is_scaling audio t Hpos Ht0 Ht1). split.
  - rewrite peak_scale by (apply Qc_div_nonneg; assumption).
    apply Qcmult_div_r. intro E. rewrite E in Hpos. discriminate.
  - apply length_map.
Qed.

(** X2.  Normalization is idempotent for a target level within [[0, 1]]:
    the engine normalizes on load, after denoising and again on save, and the
    later passes change nothing. *)
Theorem normalize_audio_idempotent (audio : list Qc) (t : Qc) :
  0 <= t -> t <= 1 ->
  AudioIO.normalize_audio (AudioIO.normalize_audio audio t) t
  = AudioIO.normalize_audio audio t.
Proof.
  intros Ht0 Ht1. destruct audio as [|a rest]; [reflexivity|].
  destruct (@normalize_cases (a :: rest) t) as [[Hpos _] | [_ H]];
    [discriminate | | rewrite !H; reflexivity].
  pose proof (@normalize_is_scaling (a :: rest) t Hpos Ht0 Ht1) as Hscale.
  apply normalize_noop; [| |exact Ht1].
  - rewrite Hscale. discriminate.
  - rewrite Hscale, peak_scale by (apply Qc_div_nonneg; assumption).
    apply Qcmult_div_r. intro E. rewrite E in Hpos. discriminate.
Qed.

(** X3.  Normalization forgets the input gain: a buffer and the same buffer
    multiplied by a positive constant normalize to the same result. *)
Theorem normalize_audio_gain_invariant (audio : list Qc) (c t : Qc) :
  0 < c ->
  AudioIO.normalize_audio (map (fun x => x * c) audio) t
  = AudioIO.normalize_audio audio t.
Proof.
  intro Hc. destruct audio as [|a rest]; [reflexivity|].
  assert (Hc0 : 0 <= c) by (apply Qclt_le_weak; exact Hc).
  assert (Hcne : c <> 0) by (intro E; rewrite E in Hc; discriminate).
  pose proof (@peak_scale (a :: rest) c Hc0) as Hpeak.
  destruct (@normalize_cases (a :: rest) t) as [[Hpos H] | [Hz H]];
    [discriminate | |].
  - destruct (@normalize_cases (map (fun x => x * c) (a :: rest)) t)
      as [[_ H'] | [Hz' _]]; [discriminate | |].
    + rewrite H, H', Hpeak, map_map. apply map_ext. intro x. f_equal.
      assert (Hm : AudioIO.peak (a :: rest) <> 0)
        by (intro E; rewrite E in Hpos; discriminate).
      field. split; assumption.
    + rewrite Hpeak in Hz'. apply Qcmult_integral in Hz'.
      destruct Hz' as [Hz' | Hz']; [|contradiction].
      rewrite Hz' in Hpos. discriminate.
  - pose proof (@peak_zero_all (a :: rest) Hz) as Hall.
    assert (Hsame : map (fun x => x * c) (a :: rest) = a :: rest).
    { rewrite <- (map_id (a :: rest)) at 2. apply map_ext_in.
      intros x Hin. rewrite Forall_forall in Hall.
      rewrite (Hall x Hin). apply Qcmult_0_l. }
    rewrite Hsame. reflexivity.
Qed.
End NormalizeMore.

Lemma normalize_audio_reaches_target_witness :
  AudioIO.peak (AudioIO.normalize_audio
                  [RealAxis.q 1 4; RealAxis.q (-1) 2] (RealAxis.q 9 10))
  = RealAxis.q 9 10.
Proof.
  apply (@normalize_audio_reaches_target
           [RealAxis.q 1 4; RealAxis.q (-1) 2] (RealAxis.q 9 10)).
  - reflexivity.
  - discriminate.
  - discriminate.
Defined.

Lemma normalize_audio_idempotent_witness :
  AudioIO.normalize_audio
    (AudioIO.normalize_audio [RealAxis.q 1 4; RealAxis.q (-1) 2]
                             (RealAxis.q 9 10)) (RealAxis.q 9 10)
  = AudioIO.normalize_audio [RealAxis.q 1 4; RealAxis.q (-1) 2]
                            (RealAxis.q 9 10).
Proof.
  apply normalize_audio_idempotent; discriminate.
Defined.

Lemma normalize_audio_gain_invariant_witness :
  AudioIO.normalize_audio
    (map (fun x => (x * RealAxis.z 3)%Qc)
         [RealAxis.q 1 4; RealAxis.q (-1) 2]) (RealAxis.q 9 10)
  = AudioIO.normalize_audio [RealAxis.q 1 4; RealAxis.q (-1) 2]
                            (RealAxis.q 9 10).
Proof.
  apply normalize_audio_gain_invariant. reflexivity.
Defined.

(** ** Which exceptions a run can end with *)

Section Exceptions.
Context {A C : Type} {S : Scalar A} {L : Library A C}.

Lemma outcome_bind_inl {X Y} (c : M X) (k : X -> M Y) (e : exn) :
  outcome (bind c k) = inl e ->
  outcome c = inl e \/ exists x, outcome c = inr x /\ outcome (k x) = inl e.
Proof.
  destruct c as [t [e' | x]]; cbn;
    [intro H; left; inversion H; reflexivity|].
  intro H. right. exists x. split; [reflexivity|].
  destruct (k x). exact H.
Qed.

Lemma outcome_bind_inr {X Y} (c : M X) (k : X -> M Y) (y : Y) :
  outcome (bind c k) = inr y ->
  exists x, outcome c = inr x /\ outcome (k x) = inr y.
Proof.
  destruct c as [t [e' | x]]; cbn; [discriminate|].
  intro H. exists x. split; [reflexivity|].
  destruct (k x). exact H.
Qed.

Lemma extern_errors {X} (ev : call A) (r : lib_error + X) (e : exn) :
  outcome (extern ev r) = inl e -> stage_error e.
Proof.
  destruct r; cbn; intro H; inversion H; subst. exact I.
Qed.

Lemma extern_inr {X} (ev : call A) (r : lib_error + X) (x : X) :
  outcome (extern ev r) = inr x -> r = inr x.
Proof.
  destruct r; cbn; intro H; inversion H; subst. reflexivity.
Qed.

Lemma numpy_errors {X} (r : option X) (e : exn) :
  outcome (numpy r) = inl e -> stage_error e.
Proof.
  destruct r; cbn; intro H; inversion H; subst. exact I.
Qed.

Lemma notch_filter_errors (self : Denoiser.denoiser) (audio : list A)
      (sr : Z) (freq Q : A) (e : exn) :
  outcome (Denoiser._notch_filter self audio sr freq Q) = inl e ->
  stage_error e.
Proof.
  unfold Denoiser._notch_filter. intro H.
  apply outcome_bind_inl in H. destruct H as [H | (ba & _ & H)];
    exact (extern_errors _ _ H).
Qed.

Lemma bandpass_errors (self : Denoiser.denoiser) (audio : list A) (sr : Z)
      (lowcut highcut : option A) (order : Z) (voice_type : string)
      (e : exn) :
  outcome (Denoiser._bandpass_filter self audio sr lowcut highcut order
                                     voice_type) = inl e ->
  stage_error e \/ exists l h, e = InvalidBand l h.
Proof.
  unfold Denoiser._bandpass_filter.
  destruct (Denoiser.effective_band sr lowcut highcut voice_type) as [l h].
  destruct (h <=? l)%S.
  - cbn. intro H. inversion H; subst. right. eauto.
  - intro H. left.
    apply outcome_bind_inl in H. destruct H as [H | (ba & _ & H)];
      [exact (extern_errors _ _ H)|].
    apply outcome_bind_inl in H. destruct H as [H | (filtered & _ & H)];
      [exact (extern_errors _ _ H)|].
    destruct (Denoiser.notch_skipped l h); [discriminate|].
    exact (notch_filter_errors _ _ _ _ _ H).
Qed.

Lemma estimate_noise_profile_errors (audio : list A) (sr : Z)
      (noise_duration : A) (n_fft hop_length : Z) (e : exn) :
  outcome (STFTUtils.estimate_noise_profile audio sr noise_duration n_fft
                                            hop_length) = inl e ->
  stage_error e.
Proof.
  unfold STFTUtils.estimate_noise_profile, STFTUtils.stft. intro H.
  apply outcome_bind_inl in H. destruct H as [H | (x & _ & H)];
    [exact (extern_errors _ _ H) | discriminate].
Qed.

Lemma spectral_subtraction_errors (self : Denoiser.denoiser)
      (audio : list A) (sr n_fft hop_length : Z)
      (over_subtraction spectral_floor noise_duration : A) (e : exn) :
  outcome (Denoiser._spectral_subtraction self audio sr n_fft hop_length
             over_subtraction spectral_floor noise_duration) = inl e ->
  stage_error e.
Proof.
  unfold Denoiser._spectral_subtraction, STFTUtils.stft, STFTUtils.istft.
  intro H.
  apply outcome_bind_inl in H. destruct H as [H | (profile & _ & H)];
    [exact (estimate_noise_profile_errors _ _ _ _ _ H)|].
  apply outcome_bind_inl in H. destruct H as [H | (stft_matrix & _ & H)];
    [exact (extern_errors _ _ H)|].
  apply outcome_bind_inl in H. destruct H as [H | (clean & _ & H)];
    [exact (numpy_errors _ H) | exact (extern_errors _ _ H)].
Qed.

Lemma wiener_errors (self : Denoiser.denoiser) (audio : list A)
      (sr n_fft hop_length : Z) (smoothing : A) (e : exn) :
  outcome (Denoiser._wiener_filter self audio sr n_fft hop_length smoothing)
  = inl e ->
  stage_error e.
Proof.
  unfold Denoiser._wiener_filter, STFTUtils.stft, STFTUtils.istft. intro H.
  apply outcome_bind_inl in H. destruct H as [H | (stft_matrix & _ & H)];
    [exact (extern_errors _ _ H)|].
  destruct (hop_length =? 0); [inversion H; subst; exact I|].
  apply outcome_bind_inl in H. destruct H as [H | (clean & _ & H)];
    [exact (numpy_errors _ H) | exact (extern_errors _ _ H)].
Qed.

Lemma noisereduce_errors (self : Denoiser.denoiser) (audio : list A)
      (sr : Z) (stationary : bool) (prop_decrease : A) (n_fft hop_length : Z)
      (e : exn) :
  outcome (Denoiser._noisereduce_filter self audio sr stationary
             prop_decrease n_fft hop_length) = inl e ->
  stage_error e.
Proof.
  unfold Denoiser._noisereduce_filter. apply extern_errors.
Qed.

Lemma estimate_noise_level_errors (self : Denoiser.denoiser)
      (audio : list A) (e : exn) :
  outcome (Denoiser._estimate_noise_level self audio) = inl e ->
  stage_error e.
Proof.
  unfold Denoiser._estimate_noise_level. intro H.
  apply outcome_bind_inl in H. destruct H as [H | (x & _ & H)];
    [exact (extern_errors _ _ H)|].
  destruct (List.length audio =? 0)%nat; [|discriminate].
  inversion H; subst. exact I.
Qed.

Lemma adaptive_errors (self : Denoiser.denoiser) (audio : list A) (sr : Z)
      (initial_method fallback_method : string) (e : exn) :
  outcome (Denoiser._adaptive_denoise self audio sr initial_method
                                      fallback_method) = inl e ->
  stage_error e \/ exists l h, e = InvalidBand l h.
Proof.
  unfold Denoiser._adaptive_denoise. intro H.
  apply outcome_bind_inl in H. destruct H as [H | (s1 & _ & H)];
    [exact (bandpass_errors _ _ _ _ _ _ _ H)|].
  left.
  apply outcome_bind_inl in H. destruct H as [H | (r & _ & H)];
    [exact (estimate_noise_level_errors _ _ H)|].
  apply outcome_bind_inl in H. destruct H as [H | (u & _ & H)];
    [destruct (Denoiser.verbose self); discriminate|].
  destruct (r <? of_Q (5 # 100))%S; [discriminate|].
  destruct (r <? of_Q (15 # 100))%S.
  - apply outcome_bind_inl in H. destruct H as [H | (s2 & _ & H)];
      [exact (spectral_subtraction_errors _ _ _ _ _ _ _ _ H) | discriminate].
  - apply outcome_bind_inl in H. destruct H as [H | (s2 & _ & H)];
      [exact (spectral_subtraction_errors _ _ _ _ _ _ _ _ H)|].
    apply outcome_bind_inl in H. destruct H as [H | (s3 & _ & H)];
      [exact (noisereduce_errors _ _ _ _ _ _ _ H) | discriminate].
Qed.
End Exceptions.

(** ** The entry point: dispatch, result record, exceptions *)

Section Entry.
Context {A C : Type} {S : Scalar A} {L : Library A C}.

Lemma available_methods_spec (m : string) :
  In m Denoiser.get_available_methods
  <-> m = "bandpass" \/ m = "spectral_subtraction" \/ m = "wiener"
      \/ m = "noisereduce" \/ m = "adaptive".
Proof.
  unfold Denoiser.get_available_methods, Denoiser.METHOD_BANDPASS,
    Denoiser.METHOD_SPECTRAL_SUBTRACTION, Denoiser.METHOD_WIENER,
    Denoiser.METHOD_NOISEREDUCE, Denoiser.METHOD_ADAPTIVE.
  cbn [In]. intuition congruence.
Qed.

Lemma run_method_unknown (self : Denoiser.denoiser) (m : string)
      (audio_data : list A) (orig_sr : Z) (kw : Denoiser.kwargs) :
  ~ In m Denoiser.get_available_methods ->
  Denoiser.run_method self m audio_data orig_sr kw
  = raise (UnknownMethod m).
Proof.
  intro Hnot. rewrite available_methods_spec in Hnot.
  unfold Denoiser.run_method.
  destruct (String.eqb_spec m Denoiser.METHOD_BANDPASS) as [-> | _];
    [exfalso; apply Hnot; auto|].
  destruct (String.eqb_spec m Denoiser.METHOD_SPECTRAL_SUBTRACTION)
    as [-> | _]; [exfalso; apply Hnot; auto|].
  destruct (String.eqb_spec m Denoiser.METHOD_WIENER) as [-> | _];
    [exfalso; apply Hnot; auto|].
  destruct (String.eqb_spec m Denoiser.METHOD_NOISEREDUCE) as [-> | _];
    [exfalso; apply Hnot; auto 6|].
  destruct (String.eqb_spec m Denoiser.METHOD_ADAPTIVE) as [-> | _];
    [exfalso; apply Hnot; auto 6|].
  reflexivity.
Qed.

Lemma run_method_errors (self : Denoiser.denoiser) (m : string)
      (audio_data : list A) (orig_sr : Z) (kw : Denoiser.kwargs) (e : exn) :
  outcome (Denoiser.run_method self m audio_data orig_sr kw) = inl e ->
  stage_error e
  \/ ((exists l h, e = InvalidBand l h)
      /\ (m = "bandpass" \/ m = "adaptive"))
  \/ e = UnexpectedKeyword
  \/ (e = UnknownMethod m /\ ~ In m Denoiser.get_available_methods).
Proof.
  unfold Denoiser.run_method.
  destruct (String.eqb_spec m Denoiser.METHOD_BANDPASS) as [-> | N1].
  { match goal with |- context [if ?b then _ else _] => destruct b end;
      intro H; [|inversion H; auto].
    destruct (bandpass_errors _ _ _ _ _ _ _ H) as [Hs | Hb]; auto. }
  destruct (String.eqb_spec m Denoiser.METHOD_SPECTRAL_SUBTRACTION)
    as [-> | N2].
  { match goal with |- context [if ?b then _ else _] => destruct b end;
      intro H; [|inversion H; auto].
    left. exact (spectral_subtraction_errors _ _ _ _ _ _ _ _ H). }
  destruct (String.eqb_spec m Denoiser.METHOD_WIENER) as [-> | N3].
  { match goal with |- context [if ?b then _ else _] => destruct b end;
      intro H; [|inversion H; auto].
    left. exact (wiener_errors _ _ _ _ _ _ H). }
  destruct (String.eqb_spec m Denoiser.METHOD_NOISEREDUCE) as [-> | N4].
  { match goal with |- context [if ?b then _ else _] => destruct b end;
      intro H; [|inversion H; auto].
    left. exact (noisereduce_errors _ _ _ _ _ _ _ H). }
  destruct (String.eqb_spec m Denoiser.METHOD_ADAPTIVE) as [-> | N5].
  { match goal with |- context [if ?b then _ else _] => destruct b end;
      intro H; [|inversion H; auto].
    destruct (adaptive_errors _ _ _ _ _ H) as [Hs | Hb]; auto. }
  intro H. cbn in H. inversion H; subst. right. right. right.
  split; [reflexivity|]. rewrite available_methods_spec.
  unfold Denoiser.METHOD_BANDPASS, Denoiser.METHOD_SPECTRAL_SUBTRACTION,
    Denoiser.METHOD_WIENER, Denoiser.METHOD_NOISEREDUCE,
    Denoiser.METHOD_ADAPTIVE in *.
  intuition congruence.
Qed.

Lemma run_method_known (self : Denoiser.denoiser) (m : string)
      (audio_data : list A) (orig_sr : Z) (kw : Denoiser.kwargs)
      (out : list A) :
  outcome (Denoiser.run_method self m audio_data orig_sr kw) = inr out ->
  In m Denoiser.get_available_methods.
Proof.
  intro H.
  destruct (in_dec string_dec m Denoiser.get_available_methods)
    as [Hin | Hnot]; [exact Hin|].
  rewrite (run_method_unknown self audio_data orig_sr kw Hnot) in H.
  discriminate.
Qed.

(** [load_audio] either rejects a path before anything is decoded, or is
    the one call of [librosa.load] with its result normalized. *)
Lemma load_audio_cases (filepath : source) (sr : option Z) :
  let supported :=
    existsb (String.eqb (path_suffix_lower filepath))
            AudioIO.SUPPORTED_FORMATS in
  (is_bytes filepath = false /\ path_exists filepath = false
   /\ AudioIO.load_audio filepath sr = ([], inl (LoadError FileNotFound)))
  \/ (is_bytes filepath = false /\ path_exists filepath = true
      /\ supported = false
      /\ AudioIO.load_audio filepath sr
         = ([], inl (LoadError UnsupportedFormat)))
  \/ ((is_bytes filepath = true
       \/ (path_exists filepath = true /\ supported = true))
      /\ AudioIO.load_audio filepath sr
         = match librosa_load filepath sr with
           | inl e => ([CallLoad], inl (LoadError (Undecodable e)))
           | inr (audio, sr_orig) =>
               ([CallLoad],
                inr (AudioIO.normalize_audio audio
                                             AudioIO.default_target_level,
                     match sr with None => sr_orig | Some r => r end))
           end).
Proof.
  cbn zeta. unfold AudioIO.load_audio.
  destruct (is_bytes filepath); [right; right; split; [left|]; reflexivity|].
  destruct (path_exists filepath); cbn [negb];
    [|left; repeat split; reflexivity].
  destruct (existsb (String.eqb (path_suffix_lower filepath))
                    AudioIO.SUPPORTED_FORMATS); cbn [negb].
  - right; right. split; [right; split; reflexivity | reflexivity].
  - right; left. repeat split; reflexivity.
Qed.

Lemma prepare_input_rate (self : Denoiser.denoiser)
      (audio : Denoiser.audio_input) (sr : option Z)
      (audio_data : list A) (orig_sr : Z) :
  outcome (Denoiser.prepare_input self audio sr) = inr (audio_data, orig_sr) ->
  orig_sr = Denoiser.target_sr self.
Proof.
  unfold Denoiser.prepare_input. destruct audio as [data | src].
  - destruct (Z.eqb_spec (Denoiser.sr_or sr (Denoiser.target_sr self))
                         (Denoiser.target_sr self)) as [E | N]; cbn [negb].
    + cbn. intro H. inversion H. congruence.
    + intro H. apply outcome_bind_inr in H. destruct H as (x & _ & H).
      cbn in H. inversion H. reflexivity.
  - destruct (load_audio_cases src (Some (Denoiser.target_sr self)))
      as [(_ & _ & ->) | [(_ & _ & _ & ->) | (_ & ->)]];
      [discriminate | discriminate |].
    destruct (librosa_load src (Some (Denoiser.target_sr self)))
      as [e | [raw file_rate]]; cbn; intro H; inversion H. reflexivity.
Qed.

Lemma prepare_input_errors (self : Denoiser.denoiser)
      (audio : Denoiser.audio_input) (sr : option Z) (e : exn) :
  outcome (Denoiser.prepare_input self audio sr) = inl e ->
  (exists src cause, audio = Denoiser.FromSource src /\ e = LoadError cause)
  \/ (stage_error e /\ exists data, audio = Denoiser.Samples data).
Proof.
  unfold Denoiser.prepare_input. destruct audio as [data | src].
  - intro H. right. split; [|eauto].
    destruct (negb _); [|discriminate].
    apply outcome_bind_inl in H. destruct H as [H | (x & _ & H)];
      [|discriminate].
    unfold AudioIO.resample_audio in H.
    destruct (_ =? _); [discriminate | exact (extern_errors _ _ H)].
  - intro H. left. exists src.
    destruct (load_audio_cases src (Some (Denoiser.target_sr self)))
      as [(_ & _ & E) | [(_ & _ & _ & E) | (_ & E)]];
      rewrite E in H.
    + inversion H. eauto.
    + inversion H. eauto.
    + destruct (librosa_load src (Some (Denoiser.target_sr self)))
        as [cause | [raw file_rate]]; cbn in H; inversion H. eauto.
Qed.

(** X4.  Every result of [denoise], whatever the kind of input and the rate
    the caller passed, carries the target rate of the denoiser as
    [sample_rate], the effective method name (one of the five available
    ones) as [method], and the length of the returned samples as
    [denoised_shape]. *)
Theorem denoise_result_fields
        (self : Denoiser.denoiser) (audio : Denoiser.audio_input)
        (sr : option Z) (method : option string) (kw : Denoiser.kwargs)
        (result : Denoiser.denoise_result) :
  outcome (Denoiser.denoise self audio sr method kw) = inr result ->
  Denoiser.sample_rate result = Denoiser.target_sr self
  /\ Denoiser.method result
     = Denoiser.method_or method (Denoiser.default_method self)
  /\ In (Denoiser.method result) Denoiser.get_available_methods
  /\ Denoiser.denoised_shape result = List.length (Denoiser.audio result).
Proof.
  unfold Denoiser.denoise. intro H.
  apply outcome_bind_inr in H. destruct H as ([audio_data orig_sr] & Hin & H).
  apply prepare_input_rate in Hin. subst orig_sr.
  apply outcome_bind_inr in H. destruct H as (denoised & Hrun & H).
  apply run_method_known in Hrun.
  apply outcome_bind_inr in H. destruct H as (trimmed & _ & H).
  apply outcome_bind_inr in H. destruct H as (u & _ & H).
  cbn in H. inversion H; subst. cbn. auto.
Qed.

(** X5.  The exceptions of [denoise]: a [LoadError] only when the input is a
    path or [bytes]; [InvalidBand] only from the [bandpass] and [adaptive]
    methods; [UnknownMethod] only for a name outside the available methods,
    and it then names that method; otherwise an unexpected keyword or an
    error raised inside a processing stage. *)
Theorem denoise_exceptions
        (self : Denoiser.denoiser) (audio : Denoiser.audio_input)
        (sr : option Z) (method : option string) (kw : Denoiser.kwargs)
        (e : exn) :
  outcome (Denoiser.denoise self audio sr method kw) = inl e ->
  let m := Denoiser.method_or method (Denoiser.default_method self) in
  (exists src cause, audio = Denoiser.FromSource src /\ e = LoadError cause)
  \/ stage_error e
  \/ ((exists l h, e = InvalidBand l h)
      /\ (m = "bandpass" \/ m = "adaptive"))
  \/ e = UnexpectedKeyword
  \/ (e = UnknownMethod m /\ ~ In m Denoiser.get_available_methods).
Proof.
  unfold Denoiser.denoise. intro H. cbn zeta.
  apply outcome_bind_inl in H.
  destruct H as [H | ([audio_data orig_sr] & _ & H)].
  { destruct (prepare_input_errors _ _ _ H) as [Hl | [Hs _]]; auto. }
  apply outcome_bind_inl in H. destruct H as [H | (denoised & _ & H)].
  { right. exact (run_method_errors _ _ _ _ _ H). }
  apply outcome_bind_inl in H. destruct H as [H | (trimmed & _ & H)].
  { right. left. exact (extern_errors _ _ H). }
  apply outcome_bind_inl in H. destruct H as [H | (u & _ & H)];
    [destruct (Denoiser.verbose self)|]; discriminate.
Qed.

(** X6.  A method name outside [get_available_methods()] is rejected with
    [UnknownMethod] naming it, once the input has been loaded or resampled
    and before anything else is called: the trace of the run is that of the
    input preparation. *)
Theorem denoise_unknown_method
        (self : Denoiser.denoiser) (audio : Denoiser.audio_input)
        (sr : option Z) (method : option string) (kw : Denoiser.kwargs)
        (input : list A * Z) :
  let m := Denoiser.method_or method (Denoiser.default_method self) in
  ~ In m Denoiser.get_available_methods ->
  outcome (Denoiser.prepare_input self audio sr) = inr input ->
  Denoiser.denoise self audio sr method kw
  = (trace (Denoiser.prepare_input self audio sr), inl (UnknownMethod m)).
Proof.
  cbn zeta. intros Hnot Hin. unfold Denoiser.denoise.
  rewrite bind_inr with (x := input) by exact Hin.
  destruct input as [audio_data orig_sr].
  rewrite (run_method_unknown self audio_data orig_sr kw Hnot).
  cbn. rewrite app_nil_r. reflexivity.
Qed.
End Entry.

Lemma denoise_result_fields_witness :
  match outcome (Denoiser.denoise
                   (L := RealAxis.library) RealAxis.self
                   (Denoiser.Samples
                      [RealAxis.z 1; RealAxis.z (-1); RealAxis.z 1])
                   (Some 8000) (Some "wiener") Denoiser.no_kwargs) with
  | inr result =>
      Denoiser.sample_rate result = 16000
      /\ Denoiser.method result = "wiener"
  | inl _ => False
  end.
Proof.
  destruct (outcome (Denoiser.denoise
                       (L := RealAxis.library) RealAxis.self
                       (Denoiser.Samples
                          [RealAxis.z 1; RealAxis.z (-1); RealAxis.z 1])
                       (Some 8000) (Some "wiener") Denoiser.no_kwargs))
    as [e | result] eqn:E.
  - vm_compute in E. discriminate.
  - destruct (denoise_result_fields _ _ _ _ _ E) as (Hrate & Hmethod & _).
    split; assumption.
Defined.

Lemma denoise_exceptions_witness :
  let e : @exn Qc Qc RealAxis.library := UnknownMethod "median" in
  (exists src cause,
      Denoiser.Samples (L := RealAxis.library) [RealAxis.z 1]
      = Denoiser.FromSource src
      /\ e = LoadError cause)
  \/ stage_error e
  \/ ((exists l h, e = InvalidBand l h)
      /\ ("median" = "bandpass" \/ "median" = "adaptive"))
  \/ e = UnexpectedKeyword
  \/ (e = UnknownMethod "median"
      /\ ~ In "median" Denoiser.get_available_methods).
Proof.
  apply (@denoise_exceptions Qc Qc Qc_Scalar RealAxis.library RealAxis.self
           (Denoiser.Samples [RealAxis.z 1]) None (Some "median")
           Denoiser.no_kwargs (UnknownMethod "median")).
  reflexivity.
Defined.

Lemma denoise_unknown_method_witness :
  Denoiser.denoise (L := RealAxis.library) RealAxis.self
                   (Denoiser.Samples [RealAxis.z 1]) None (Some "median")
                   Denoiser.no_kwargs
  = ([], inl (UnknownMethod "median")).
Proof.
  apply (@denoise_unknown_method Qc Qc Qc_Scalar RealAxis.library
           RealAxis.self (Denoiser.Samples [RealAxis.z 1]) None
           (Some "median") Denoiser.no_kwargs ([RealAxis.z 1], 16000)).
  - intro H. apply available_methods_spec in H.
    repeat (destruct H as [H | H]; [discriminate|]). discriminate.
  - reflexivity.
Defined.

(** ** Ranges of the samples the engine hands out *)

Section Ranges.
Context {C : Type} {L : Library Qc C}.
Local Open Scope Qc_scope.

Lemma normalize_audio_length (audio : list Qc) (t : Qc) :
  List.length (AudioIO.normalize_audio audio t) = List.length audio.
Proof.
  destruct audio as [|a rest]; [reflexivity|].
  destruct (@normalize_cases (a :: rest) t) as [[_ ->] | [_ ->]];
    [discriminate | apply length_map | reflexivity].
Qed.

(** X7.  [load_audio] hands a [bytes] object, or a path that exists and
    carries one of the six supported suffixes, to [librosa.load], in exactly
    one external call; a path that does not exist, or whose suffix is not
    supported, is rejected before anything is called.  Every failure, of
    the checks or of the decoding, surfaces as [LoadError].  On success the
    samples are the decoded ones normalized, all within [[-1, 1]] and as
    many as decoded, and the rate returned is the one asked for, or the
    file's own when none was asked for. *)
Theorem load_audio_result (filepath : source) (sr : option Z) :
  let supported :=
    existsb (String.eqb (path_suffix_lower filepath))
            AudioIO.SUPPORTED_FORMATS in
  let run := AudioIO.load_audio filepath sr in
  (is_bytes filepath = false -> path_exists filepath = false ->
   run = ([], inl (LoadError FileNotFound)))
  /\ (is_bytes filepath = false -> path_exists filepath = true ->
      supported = false ->
      run = ([], inl (LoadError UnsupportedFormat)))
  /\ (is_bytes filepath = true
      \/ (path_exists filepath = true /\ supported = true) ->
      trace run = [CallLoad]
      /\ forall e, outcome run = inl e ->
           exists cause, librosa_load filepath sr = inl cause
                         /\ e = LoadError (Undecodable cause))
  /\ (forall e, outcome run = inl e -> exists cause, e = LoadError cause)
  /\ (forall audio rate,
        outcome run = inr (audio, rate) ->
        trace run = [CallLoad]
        /\ (is_bytes filepath = true
            \/ (path_exists filepath = true /\ supported = true))
        /\ (forall x, In x audio -> - (1) <= x /\ x <= 1)
        /\ exists decoded file_rate,
             librosa_load filepath sr = inr (decoded, file_rate)
             /\ audio = AudioIO.normalize_audio decoded
                                                AudioIO.default_target_level
             /\ List.length audio = List.length decoded
             /\ rate = match sr with None => file_rate | Some r => r end).
Proof.
  cbn zeta.
  destruct (load_audio_cases filepath sr)
    as [(Hb & Hx & E) | [(Hb & Hx & Hs & E) | (Hok & E)]]; rewrite E.
  - split; [reflexivity|]. split; [congruence|].
    split; [intros [H | [H _]]; congruence|].
    split; [intros e H; inversion H; eauto | discriminate].
  - split; [congruence|]. split; [reflexivity|].
    split; [intros [H | [_ H]]; congruence|].
    split; [intros e H; inversion H; eauto | discriminate].
  - assert (Hno : is_bytes filepath = false -> path_exists filepath = true ->
                  existsb (String.eqb (path_suffix_lower filepath))
                          AudioIO.SUPPORTED_FORMATS = false -> False)
      by (destruct Hok as [H | [_ H]]; congruence).
    assert (Hno' : is_bytes filepath = false -> path_exists filepath = false ->
                   False)
      by (destruct Hok as [H | [H _]]; congruence).
    destruct (librosa_load filepath sr) as [cause | [decoded file_rate]];
      cbn [trace outcome fst snd].
    + split; [intros H1 H2; destruct (Hno' H1 H2)|].
      split; [intros H1 H2 H3; destruct (Hno H1 H2 H3)|].
      split; [intros _; split; [reflexivity|];
              intros e H; inversion H; subst; eauto|].
      split; [intros e H; inversion H; eauto | discriminate].
    + split; [intros H1 H2; destruct (Hno' H1 H2)|].
      split; [intros H1 H2 H3; destruct (Hno H1 H2 H3)|].
      split; [intros _; split; [reflexivity | discriminate]|].
      split; [discriminate|].
      intros audio rate H. inversion H; subst.
      split; [reflexivity|]. split; [exact Hok|]. split.
      * intros x Hin. exact (normalize_range _ _ _ Hin).
      * exists decoded, file_rate.
        split; [reflexivity|]. split; [reflexivity|].
        split; [apply normalize_audio_length | reflexivity].
Qed.

(** X8.  Whenever trimming returns samples of the buffer it was given (as
    [librosa.effects.trim], which returns a slice, does), every sample of a
    [denoise] result lies within [[-1, 1]]. *)
Theorem denoise_output_range
        (self : Denoiser.denoiser) (audio : Denoiser.audio_input)
        (sr : option Z) (method : option string) (kw : Denoiser.kwargs)
        (result : Denoiser.denoise_result) :
  (forall (x : list Qc) (top_db frame_length hop_length : Z) (y : list Qc),
      librosa_trim x top_db frame_length hop_length = inr y -> incl y x) ->
  outcome (Denoiser.denoise self audio sr method kw) = inr result ->
  forall x, In x (Denoiser.audio result) -> - (1) <= x /\ x <= 1.
Proof.
  intros Htrim H x Hin. unfold Denoiser.denoise in H.
  apply outcome_bind_inr in H. destruct H as ([audio_data orig_sr] & _ & H).
  apply outcome_bind_inr in H. destruct H as (denoised & _ & H).
  apply outcome_bind_inr in H. destruct H as (trimmed & Ht & H).
  apply outcome_bind_inr in H. destruct H as (u & _ & H).
  cbn in H. inversion H; subst. cbn in Hin.
  unfold AudioIO.trim_silence in Ht. apply extern_inr in Ht.
  apply (Htrim _ _ _ _ _ Ht) in Hin.
  exact (normalize_range _ _ _ Hin).
Qed.
End Ranges.

Lemma load_audio_result_witness :
  AudioIO.load_audio (L := RealAxis.library)
                     (RealAxis.File ".wav" false [RealAxis.z 3]) None
  = ([], inl (LoadError FileNotFound))
  /\ AudioIO.load_audio (L := RealAxis.library)
                        (RealAxis.File ".txt" true [RealAxis.z 3]) None
     = ([], inl (LoadError UnsupportedFormat))
  /\ trace (AudioIO.load_audio (L := RealAxis.library)
                               (RealAxis.File ".flac" true [RealAxis.z 3])
                               None)
     = [CallLoad]
  /\ trace (AudioIO.load_audio (L := RealAxis.library)
                               (RealAxis.Bytes [RealAxis.z 3]) (Some 8000))
     = [CallLoad].
Proof.
  split; [|split; [|split]].
  - apply (proj1 (@load_audio_result
                    Qc RealAxis.library
                    (RealAxis.File ".wav" false [RealAxis.z 3]) None));
      reflexivity.
  - apply (proj1 (proj2 (@load_audio_result
                           Qc RealAxis.library
                           (RealAxis.File ".txt" true [RealAxis.z 3]) None)));
      reflexivity.
  - apply (proj1 (proj2 (proj2 (@load_audio_result
                                  Qc RealAxis.library
                                  (RealAxis.File ".flac" true [RealAxis.z 3])
                                  None)))).
    right. split; reflexivity.
  - apply (proj1 (proj2 (proj2 (@load_audio_result
                                  Qc RealAxis.library
                                  (RealAxis.Bytes [RealAxis.z 3])
                                  (Some 8000))))).
    left. reflexivity.
Defined.

Lemma denoise_output_range_witness :
  match outcome (Denoiser.denoise
                   (L := RealAxis.library) RealAxis.self
                   (Denoiser.Samples
                      [RealAxis.z 3; RealAxis.z (-5); RealAxis.z 1])
                   None (Some "wiener") Denoiser.no_kwargs) with
  | inr result =>
      forall x, In x (Denoiser.audio result)
                -> (- (1) <= x)%Qc /\ (x <= 1)%Qc
  | inl _ => False
  end.
Proof.
  destruct (outcome (Denoiser.denoise
                       (L := RealAxis.library) RealAxis.self
                       (Denoiser.Samples
                          [RealAxis.z 3; RealAxis.z (-5); RealAxis.z 1])
                       None (Some "wiener") Denoiser.no_kwargs))
    as [e | result] eqn:E.
  - vm_compute in E. discriminate.
  - apply (@denoise_output_range Qc RealAxis.library RealAxis.self
             (Denoiser.Samples
                [RealAxis.z 3; RealAxis.z (-5); RealAxis.z 1])
             None (Some "wiener") Denoiser.no_kwargs result).
    + intros x top_db fl hl y Hy. cbn in Hy. inversion Hy; subst.
      apply incl_refl.
    + exact E.
Defined.

(** ** The voice profiles of the band-pass stage *)

(** From [Qc] to [Q], integers kept as they are. *)
Ltac qc2q_Z :=
  unfold of_Z in *; cbn [of_Q Qc_Scalar] in *;
  unfold Qcle, Qclt, Qcminus, Qcplus, Qcopp, Qcmult, Q2Qc in *;
  cbn [this] in *;
  repeat match goal with
         | H : context [Qred ?q] |- _ => rewrite (Qred_correct q) in H
         | |- context [Qred ?q] => rewrite (Qred_correct q)
         end;
  unfold Qle, Qlt, Qplus, Qmult, Qopp, inject_Z in *; cbn [Qnum Qden] in *.

Section Profiles.
Context {C : Type} {L : Library Qc C}.
Local Open Scope Qc_scope.

Lemma profile_cases (voice_type : string) :
  let profile :=
    Denoiser.dict_get voice_type Denoiser.SPEECH_FREQ_RANGES
      (Denoiser.dict_get "broadband" Denoiser.SPEECH_FREQ_RANGES
                         (0%Z, 0%Z)) in
  (voice_type = "male" /\ profile = (80%Z, 8000%Z))
  \/ (voice_type = "female" /\ profile = (100%Z, 10000%Z))
  \/ (voice_type <> "male" /\ voice_type <> "female"
      /\ profile = (50%Z, 12000%Z)).
Proof.
  unfold Denoiser.SPEECH_FREQ_RANGES. cbn [Denoiser.dict_get].
  destruct (String.eqb_spec "male" voice_type) as [<- | N1];
    [left; split; reflexivity|].
  destruct (String.eqb_spec "female" voice_type) as [<- | N2];
    [right; left; split; reflexivity|].
  right. right.
  destruct (String.eqb_spec "broadband" voice_type);
    (split; [congruence|]; split; [congruence | reflexivity]).
Qed.

(** The clamped band of a profile is empty exactly when the Nyquist
    frequency, less one, does not exceed the lower edge of the profile. *)
Lemma clamped_band_empty (sr lo hi : Z) :
  (lo < hi)%Z ->
  py_min (of_Z hi) (of_Q (1 # 2) * of_Z sr - 1)
  <= py_min (of_Z lo) (of_Q (1 # 2) * of_Z sr - 1)
  <-> (sr <= 2 * lo + 2)%Z.
Proof.
  intro Hlt. unfold py_min.
  change (@s_ltb Qc Qc_Scalar) with Qc_ltb.
  destruct (Qc_ltb (of_Q (1 # 2) * of_Z sr - 1) (of_Z hi)) eqn:E1;
    destruct (Qc_ltb (of_Q (1 # 2) * of_Z sr - 1) (of_Z lo)) eqn:E2;
    try apply Qc_ltb_lt in E1; try apply Qc_ltb_ge in E1;
    try apply Qc_ltb_lt in E2; try apply Qc_ltb_ge in E2;
    split; intro H; qc2q_Z; lia.
Qed.

(** When the clamped band of a profile is not empty, its lower edge is the
    one of the profile. *)
Lemma clamped_band_low (sr lo hi : Z) :
  (lo < hi)%Z ->
  py_min (of_Z lo) (of_Q (1 # 2) * of_Z sr - 1)
  < py_min (of_Z hi) (of_Q (1 # 2) * of_Z sr - 1) ->
  py_min (of_Z lo) (of_Q (1 # 2) * of_Z sr - 1) = of_Z lo.
Proof.
  intros Hlt. unfold py_min.
  change (@s_ltb Qc Qc_Scalar) with Qc_ltb.
  destruct (Qc_ltb (of_Q (1 # 2) * of_Z sr - 1) (of_Z lo)) eqn:E2;
    [|reflexivity].
  destruct (Qc_ltb (of_Q (1 # 2) * of_Z sr - 1) (of_Z hi)) eqn:E1;
    intro H.
  - exfalso. exact (Qclt_not_eq _ _ H eq_refl).
  - exfalso. apply Qc_ltb_lt in E2. apply Qc_ltb_ge in E1.
    qc2q_Z. lia.
Qed.
End Profiles.

Section ProfileProperties.
Context {C : Type} {L : Library Qc C}.
Local Open Scope Qc_scope.

Lemma effective_band_of_profile (sr : Z) (voice_type : string) :
  Denoiser.effective_band sr None None voice_type
  = (py_min (of_Z (fst (Denoiser.dict_get
                          voice_type Denoiser.SPEECH_FREQ_RANGES
                          (Denoiser.dict_get
                             "broadband" Denoiser.SPEECH_FREQ_RANGES
                             (0%Z, 0%Z)))))
            (of_Q (1 # 2) * of_Z sr - 1),
     py_min (of_Z (snd (Denoiser.dict_get
                          voice_type Denoiser.SPEECH_FREQ_RANGES
                          (Denoiser.dict_get
                             "broadband" Denoiser.SPEECH_FREQ_RANGES
                             (0%Z, 0%Z)))))
            (of_Q (1 # 2) * of_Z sr - 1)).
Proof. reflexivity. Qed.

Lemma unknown_profile_is_broadband (voice_type : string) :
  voice_type <> "male" -> voice_type <> "female" ->
  Denoiser.dict_get voice_type Denoiser.SPEECH_FREQ_RANGES
    (Denoiser.dict_get "broadband" Denoiser.SPEECH_FREQ_RANGES (0%Z, 0%Z))
  = (50%Z, 12000%Z).
Proof.
  intros N1 N2.
  destruct (profile_cases voice_type) as [[E _] | [[E _] | (_ & _ & E)]];
    [contradiction | contradiction | exact E].
Qed.

(** X9.  A voice type other than ['male'] and ['female'] selects the
    broadband profile (50-12000 Hz), whatever its spelling; the profile only
    fills in the cutoffs the caller left out, so with both cutoffs given the
    voice type plays no role. *)
Theorem voice_profile_selection (sr : Z) (voice_type : string) :
  voice_type <> "male" -> voice_type <> "female" ->
  (forall lowcut highcut : option Qc,
      Denoiser.effective_band sr lowcut highcut voice_type
      = Denoiser.effective_band sr lowcut highcut "broadband")
  /\ Denoiser.effective_band sr None None voice_type
     = (py_min (of_Z 50) (of_Q (1 # 2) * of_Z sr - 1),
        py_min (of_Z 12000) (of_Q (1 # 2) * of_Z sr - 1))
  /\ (forall (l h : Qc) (other : string),
        Denoiser.effective_band sr (Some l) (Some h) other
        = (py_min l (of_Q (1 # 2) * of_Z sr - 1),
           py_min h (of_Q (1 # 2) * of_Z sr - 1))).
Proof.
  intros N1 N2.
  pose proof (unknown_profile_is_broadband N1 N2) as Hp.
  split; [|split; [|reflexivity]].
  - intros lowcut highcut. unfold Denoiser.effective_band.
    rewrite Hp. reflexivity.
  - rewrite effective_band_of_profile, Hp. reflexivity.
Qed.

(** X10.  With the cutoffs left to the voice profile, the band-pass stage
    raises [InvalidBand] exactly for the sample rates at or below 162 Hz
    (male), 202 Hz (female) and 102 Hz (broadband, and any other name):
    there the Nyquist clamp pushes the upper cutoff down onto the lower
    one. *)
Theorem bandpass_profile_invalid_rate
        (self : Denoiser.denoiser) (audio : list Qc) (sr order : Z)
        (voice_type : string) :
  (sr <= (if String.eqb voice_type "male" then 162
          else if String.eqb voice_type "female" then 202 else 102))%Z
  <-> exists l h,
        outcome (Denoiser._bandpass_filter self audio sr None None order
                                           voice_type)
        = inl (InvalidBand l h).
Proof.
  pose proof (effective_band_of_profile sr voice_type) as Hband.
  assert (Hiff : forall lo hi : Z,
             (lo < hi)%Z ->
             Denoiser.dict_get voice_type Denoiser.SPEECH_FREQ_RANGES
               (Denoiser.dict_get "broadband" Denoiser.SPEECH_FREQ_RANGES
                                  (0%Z, 0%Z)) = (lo, hi) ->
             (sr <= 2 * lo + 2)%Z
             <-> exists l h,
                   outcome (Denoiser._bandpass_filter
                              self audio sr None None order voice_type)
                   = inl (InvalidBand l h)).
  { intros lo hi Hlt Hp. rewrite Hp in Hband. cbn [fst snd] in Hband.
    rewrite <- (clamped_band_empty sr Hlt). split.
    - intro Hle. eexists. eexists.
      rewrite (@bandpass_raises C L self audio sr None None order voice_type
                 _ _ Hband Hle).
      reflexivity.
    - intros (l & h & Hout).
      match goal with |- ?b <= ?a =>
        destruct (Qclt_le_dec a b) as [Hlow | Hle]; [|exact Hle]
      end.
      exfalso.
      exact (@bandpass_never_invalid_past_guard C L self audio sr None None
               order voice_type _ _ l h Hband Hlow Hout). }
  destruct (profile_cases voice_type)
    as [[-> Hp] | [[-> Hp] | (N1 & N2 & Hp)]].
  - exact (Hiff 80%Z 8000%Z eq_refl Hp).
  - exact (Hiff 100%Z 10000%Z eq_refl Hp).
  - apply String.eqb_neq in N1. apply String.eqb_neq in N2.
    rewrite N1, N2. exact (Hiff 50%Z 12000%Z eq_refl Hp).
Qed.

(** No notch filter is designed when the band is rejected or the guard of
    the notch holds. *)
Lemma bandpass_without_notch (self : Denoiser.denoiser) (audio : list Qc)
      (sr : Z) (lowcut highcut : option Qc) (order : Z)
      (voice_type : string) (l h : Qc) :
  Denoiser.effective_band sr lowcut highcut voice_type = (l, h) ->
  h <= l \/ Denoiser.notch_skipped l h = true ->
  notch_ran (Denoiser._bandpass_filter self audio sr lowcut highcut order
                                       voice_type) = false.
Proof.
  intros Hband Hcase.
  destruct (Qclt_le_dec l h) as [Hlt | Hle].
  - destruct Hcase as [Hle | Hskip];
      [exfalso; exact (Qclt_not_le _ _ Hlt Hle)|].
    rewrite (@bandpass_past_guard C L self audio sr lowcut highcut order
               voice_type l h Hband Hlt).
    rewrite Hskip. unfold notch_ran, extern, bind, ret, trace.
    destruct (scipy_butter _ _ _) as [eb | ba]; cbn; [reflexivity|].
    destruct (scipy_filtfilt ba audio); reflexivity.
  - rewrite (@bandpass_raises C L self audio sr lowcut highcut order
               voice_type l h Hband Hle).
    reflexivity.
Qed.

(** X11.  The 50 Hz notch and the voice profiles: with the broadband profile
    (the one the adaptive method pre-filters with) the notch is never run,
    at any sample rate; with the male and female profiles it is run whenever
    the band is valid and the band-pass filters succeed. *)
Theorem notch_by_profile
        (self : Denoiser.denoiser) (audio : list Qc) (sr order : Z) :
  (forall voice_type,
      voice_type <> "male" -> voice_type <> "female" ->
      notch_ran (Denoiser._bandpass_filter self audio sr None None order
                                           voice_type) = false)
  /\ (forall voice_type (l h : Qc) (ba : coeffs) (filtered : list Qc),
        voice_type = "male" \/ voice_type = "female" ->
        Denoiser.effective_band sr None None voice_type = (l, h) ->
        l < h ->
        scipy_butter order (l / (of_Q (1 # 2) * of_Z sr))
                     (h / (of_Q (1 # 2) * of_Z sr)) = inr ba ->
        scipy_filtfilt ba audio = inr filtered ->
        notch_ran (Denoiser._bandpass_filter self audio sr None None order
                                             voice_type) = true).
Proof.
  split.
  - intros voice_type N1 N2.
    pose proof (effective_band_of_profile sr voice_type) as Hband.
    rewrite (unknown_profile_is_broadband N1 N2) in Hband.
    cbn [fst snd] in Hband.
    apply (@bandpass_without_notch self audio sr None None order voice_type
             _ _ Hband).
    match goal with |- ?b <= ?a \/ _ =>
      destruct (Qclt_le_dec a b) as [Hlt | Hle]; [right | left; exact Hle]
    end.
    rewrite (@clamped_band_low sr 50 12000 eq_refl Hlt).
    reflexivity.
  - intros voice_type l h ba filtered Hvt Hband Hlt Hbutter Hfilt.
    destruct (@bandpass_notch_trace C L self audio sr None None order
                voice_type l h ba filtered Hband Hlt Hbutter Hfilt)
      as [Hran _].
    rewrite Hran. apply negb_true_iff. clear Hran Hbutter Hfilt.
    assert (Hcase : exists lo hi : Z,
               (lo = 80 /\ hi = 8000 \/ lo = 100 /\ hi = 10000)%Z
               /\ Denoiser.effective_band sr None None voice_type
                  = (py_min (of_Z lo) (of_Q (1 # 2) * of_Z sr - 1),
                     py_min (of_Z hi) (of_Q (1 # 2) * of_Z sr - 1))).
    { destruct Hvt as [-> | ->];
        [exists 80%Z, 8000%Z | exists 100%Z, 10000%Z];
        (split; [lia | reflexivity]). }
    destruct Hcase as (lo & hi & Hnum & Hband').
    rewrite Hband' in Hband.
    pose proof (f_equal fst Hband) as Hl.
    pose proof (f_equal snd Hband) as Hh.
    cbn [fst snd] in Hl, Hh. clear Hband Hband'.
    assert (Hlh : (lo < hi)%Z) by lia.
    assert (El : py_min (of_Z lo) (of_Q (1 # 2) * of_Z sr - 1) = of_Z lo).
    { apply (@clamped_band_low sr lo hi Hlh). rewrite Hl, Hh. exact Hlt. }
    rewrite El in Hl. clear El Hh Hlh.
    apply not_true_is_false. intro Hskip.
    apply notch_skipped_spec in Hskip.
    destruct Hnum as [[-> ->] | [-> ->]]; subst l;
      destruct Hskip as [[H1 H2] | [H1 H2]]; cbn in *; qc2q; lra.
Qed.
End ProfileProperties.

Lemma voice_profile_selection_witness :
  Denoiser.effective_band (A := Qc) 16000 (Some (RealAxis.z 300)) None "child"
  = Denoiser.effective_band 16000 (Some (RealAxis.z 300)) None "broadband".
Proof.
  apply (proj1 (@voice_profile_selection
                  16000 "child" ltac:(discriminate) ltac:(discriminate))).
Defined.

(** ** The method table *)

(** X12.  [get_method_description] knows exactly the methods that
    [get_available_methods] lists: it answers the "unknown method" text for
    a name if and only if the name is not an available method. *)
Theorem method_description_known (method : string) :
  Denoiser.get_method_description method = "Неизвестный метод"
  <-> ~ In method Denoiser.get_available_methods.
Proof.
  rewrite available_methods_spec.
  unfold Denoiser.get_method_description, Denoiser.method_descriptions,
    Denoiser.METHOD_BANDPASS, Denoiser.METHOD_SPECTRAL_SUBTRACTION,
    Denoiser.METHOD_WIENER, Denoiser.METHOD_NOISEREDUCE,
    Denoiser.METHOD_ADAPTIVE.
  cbn [Denoiser.dict_get].
  destruct (String.eqb_spec "bandpass" method) as [<- | N1];
    [split; [discriminate | intro H; exfalso; apply H; auto]|].
  destruct (String.eqb_spec "spectral_subtraction" method) as [<- | N2];
    [split; [discriminate | intro H; exfalso; apply H; auto]|].
  destruct (String.eqb_spec "wiener" method) as [<- | N3];
    [split; [discriminate | intro H; exfalso; apply H; auto]|].
  destruct (String.eqb_spec "noisereduce" method) as [<- | N4];
    [split; [discriminate | intro H; exfalso; apply H; auto 6]|].
  destruct (String.eqb_spec "adaptive" method) as [<- | N5];
    [split; [discriminate | intro H; exfalso; apply H; auto 6]|].
  split; [|reflexivity]. intros _ H.
  repeat (destruct H as [H | H]; [congruence|]). congruence.
Qed.

(** ** More on broadcasting and on the spectral stages *)

Section BroadcastMore.
Context {T U V : Type}.

Lemma broadcast_dim_mismatch (m n : nat) :
  m <> n -> m <> 1%nat -> n <> 1%nat -> broadcast_dim m n = None.
Proof.
  intros H1 H2 H3. unfold broadcast_dim.
  destruct (Nat.eqb_spec m n); [contradiction|].
  destruct (Nat.eqb_spec m 1); [contradiction|].
  destruct (Nat.eqb_spec n 1); [contradiction|]. reflexivity.
Qed.

(** A single row on the right: it is repeated along the frequency axis. *)
Lemma broadcast_row (op : T -> U -> V) (a : matrix T) (b : matrix U) :
  rows b = 1%nat -> cols b = cols a ->
  exists out,
    broadcast op a b = Some out
    /\ rows out = rows a /\ cols out = cols a
    /\ forall i j, (i < rows a)%nat -> (j < cols a)%nat ->
                   item out i j = op (item a i j) (item b 0%nat j).
Proof.
  intros Hr Hc. unfold broadcast.
  rewrite Hr, Hc, broadcast_dim_same, broadcast_dim_unit.
  eexists. split; [reflexivity|]. split; [reflexivity|].
  split; [reflexivity|]. intros i j Hi Hj. cbn.
  rewrite !broadcast_index_in by assumption. reflexivity.
Qed.
End BroadcastMore.

Section SpectralMore.
Context {C : Type} {L : Library Qc C}.
Local Open Scope Qc_scope.

(** X13.  Splitting a spectrum into magnitude and phase and combining them
    again gives back every bin, in a frame of the same shape, as long as the
    complex arithmetic reconstructs a number from its modulus and argument. *)
Theorem magnitude_phase_round_trip (stft_matrix : matrix C) :
  (forall z : C, np_scale (np_abs z) (np_exp_1j (np_angle z)) = z) ->
  exists out,
    STFTUtils.combine_magnitude_phase
      (fst (STFTUtils.get_magnitude_phase stft_matrix))
      (snd (STFTUtils.get_magnitude_phase stft_matrix)) = Some out
    /\ rows out = rows stft_matrix /\ cols out = cols stft_matrix
    /\ forall i j, (i < rows stft_matrix)%nat -> (j < cols stft_matrix)%nat ->
                   item out i j = item stft_matrix i j.
Proof.
  intro Hpolar.
  unfold STFTUtils.get_magnitude_phase, STFTUtils.combine_magnitude_phase.
  cbn [fst snd].
  destruct (@broadcast_same_shape _ _ _ np_scale (mmap np_abs stft_matrix)
              (mmap np_exp_1j (mmap np_angle stft_matrix)))
    as (out & -> & Hr & Hc & Hout); [reflexivity | reflexivity |].
  exists out. split; [reflexivity|]. split; [exact Hr|]. split; [exact Hc|].
  intros i j Hi Hj. rewrite Hout by assumption. cbn. apply Hpolar.
Qed.

(** The bins of spectral subtraction with a per-bin column profile. *)
Lemma spectral_subtraction_column
      (stft_matrix : matrix C) (noise : matrix Qc) (o f : Qc) :
  rows noise = rows stft_matrix -> cols noise = 1%nat ->
  exists out,
    STFTUtils.spectral_subtraction stft_matrix (Arr2 noise) o f = Some out
    /\ rows out = rows stft_matrix /\ cols out = cols stft_matrix
    /\ forall i j, (i < rows stft_matrix)%nat -> (j < cols stft_matrix)%nat ->
         item out i j
         = np_scale
             (np_maximum (np_abs (item stft_matrix i j) - o * item noise i 0%nat)
                         (f * np_abs (item stft_matrix i j)))
             (np_exp_1j (np_angle (item stft_matrix i j))).
Proof.
  intros Hrows Hcols.
  unfold STFTUtils.spectral_subtraction, STFTUtils.get_magnitude_phase.
  cbn [as_matrix nd_map].
  destruct (@broadcast_column _ _ _ s_sub (mmap np_abs stft_matrix)
              (mmap (fun n => (o * n)%S) noise))
    as (sub & -> & Hsr & Hsc & Hsub); [exact Hrows | exact Hcols |].
  cbn in Hsr, Hsc.
  destruct (@broadcast_same_shape _ _ _ np_maximum sub
              (mmap (fun m => (f * m)%S) (mmap np_abs stft_matrix)))
    as (clean & -> & Hcr & Hcc & Hclean);
    [cbn; congruence | cbn; congruence |].
  cbn in Hcr, Hcc.
  unfold STFTUtils.combine_magnitude_phase.
  destruct (@broadcast_same_shape _ _ _ np_scale clean
              (mmap np_exp_1j (mmap np_angle stft_matrix)))
    as (out & -> & Hor & Hoc & Hout);
    [cbn; congruence | cbn; congruence |].
  cbn in Hor, Hoc.
  exists out. split; [reflexivity|].
  split; [congruence|]. split; [congruence|].
  intros i j Hi Hj.
  rewrite Hout by congruence. cbn [mmap item].
  rewrite Hclean by congruence. rewrite Hsub by (cbn; assumption).
  reflexivity.
Qed.

(** X14.  Spectral subtraction only attenuates: with a non-negative per-bin
    noise profile, a non-negative over-subtraction factor and a spectral
    floor within [[0, 1]], no bin of the output has a larger magnitude than
    the same bin of the input. *)
Theorem spectral_subtraction_attenuates
        (stft_matrix : matrix C) (noise : matrix Qc) (o f : Qc) :
  rows noise = rows stft_matrix -> cols noise = 1%nat ->
  0 <= o -> 0 <= f -> f <= 1 ->
  (forall i, 0 <= item noise i 0%nat) ->
  (forall z : C, 0 <= np_abs z) ->
  (forall m p : Qc, 0 <= m -> np_abs (np_scale m (np_exp_1j p)) = m) ->
  exists out,
    STFTUtils.spectral_subtraction stft_matrix (Arr2 noise) o f = Some out
    /\ forall i j, (i < rows stft_matrix)%nat -> (j < cols stft_matrix)%nat ->
         np_abs (item out i j) <= np_abs (item stft_matrix i j).
Proof.
  intros Hrows Hcols Ho Hf0 Hf1 Hnoise Habs Hpolar.
  destruct (spectral_subtraction_column stft_matrix noise o f Hrows Hcols)
    as (out & Hrun & _ & _ & Hout).
  exists out. split; [exact Hrun|]. intros i j Hi Hj.
  rewrite (Hout i j Hi Hj).
  set (m := np_abs (item stft_matrix i j)).
  assert (Hm : 0 <= m) by apply Habs.
  assert (Hp : 0 <= o * item noise i 0%nat)
    by (apply Qc_mult_nonneg; [exact Ho | apply Hnoise]).
  set (p := o * item noise i 0%nat) in *.
  assert (Hfm0 : 0 <= f * m) by (apply Qc_mult_nonneg; assumption).
  assert (Hfm : f * m <= m).
  { rewrite <- (Qcmult_1_l m) at 2. apply Qcmult_le_compat_r; assumption. }
  assert (Hsub : m - p <= m) by (clear Hfm Hfm0; qc2q; lra).
  rewrite Hpolar.
  - cbn. destruct (Qc_ltb (m - p) (f * m)); assumption.
  - apply Qcle_trans with (f * m); [exact Hfm0 | apply Qc_max_r].
Qed.

(** X15.  With nothing to subtract (an all-zero noise profile) and a
    spectral floor within [[0, 1]], spectral subtraction returns the
    spectrum it was given, bin for bin. *)
Theorem spectral_subtraction_of_silence
        (stft_matrix : matrix C) (noise : matrix Qc) (o f : Qc) :
  rows noise = rows stft_matrix -> cols noise = 1%nat ->
  f <= 1 ->
  (forall i, item noise i 0%nat = 0) ->
  (forall z : C, 0 <= np_abs z) ->
  (forall z : C, np_scale (np_abs z) (np_exp_1j (np_angle z)) = z) ->
  exists out,
    STFTUtils.spectral_subtraction stft_matrix (Arr2 noise) o f = Some out
    /\ rows out = rows stft_matrix /\ cols out = cols stft_matrix
    /\ forall i j, (i < rows stft_matrix)%nat -> (j < cols stft_matrix)%nat ->
                   item out i j = item stft_matrix i j.
Proof.
  intros Hrows Hcols Hf1 Hnoise Habs Hpolar.
  destruct (spectral_subtraction_column stft_matrix noise o f Hrows Hcols)
    as (out & Hrun & Hr & Hc & Hout).
  exists out. split; [exact Hrun|]. split; [exact Hr|]. split; [exact Hc|].
  intros i j Hi Hj. rewrite (Hout i j Hi Hj), Hnoise.
  set (m := np_abs (item stft_matrix i j)).
  assert (Hm : 0 <= m) by apply Habs.
  assert (Hfm : f * m <= m).
  { rewrite <- (Qcmult_1_l m) at 2. apply Qcmult_le_compat_r; assumption. }
  assert (Hmax : np_maximum (m - o * 0) (f * m) = m).
  { rewrite Qcmult_0_r. replace (m - 0) with m by ring. cbn.
    assert (E : Qc_ltb m (f * m) = false) by (apply Qc_ltb_ge; exact Hfm).
    rewrite E. reflexivity. }
  rewrite Hmax. apply Hpolar.
Qed.

(** X16.  A 1-D noise profile is lined up with the time axis, not with the
    frequency axis: when its length is the number of frames, entry [frame]
    is subtracted from every bin of that frame; when its length is neither
    the number of frames nor 1 (and there is more than one frame), the call
    fails to broadcast.  Likewise a column profile with the wrong number of
    bins fails. *)
Theorem spectral_subtraction_profile_shape
        (stft_matrix : matrix C) (o f : Qc) :
  (forall profile : vector Qc,
      size profile = cols stft_matrix ->
      exists out,
        STFTUtils.spectral_subtraction stft_matrix (Arr1 profile) o f
        = Some out
        /\ forall i j,
             (i < rows stft_matrix)%nat -> (j < cols stft_matrix)%nat ->
             item out i j
             = np_scale
                 (np_maximum
                    (np_abs (item stft_matrix i j) - o * elem profile j)
                    (f * np_abs (item stft_matrix i j)))
                 (np_exp_1j (np_angle (item stft_matrix i j))))
  /\ (forall profile : vector Qc,
        size profile <> cols stft_matrix -> size profile <> 1%nat ->
        cols stft_matrix <> 1%nat ->
        STFTUtils.spectral_subtraction stft_matrix (Arr1 profile) o f = None)
  /\ (forall noise : matrix Qc,
        rows noise <> rows stft_matrix -> rows noise <> 1%nat ->
        rows stft_matrix <> 1%nat ->
        STFTUtils.spectral_subtraction stft_matrix (Arr2 noise) o f = None).
Proof.
  split; [|split].
  - intros profile Hsize.
    unfold STFTUtils.spectral_subtraction, STFTUtils.get_magnitude_phase.
    cbn [as_matrix nd_map size elem].
    destruct (@broadcast_row _ _ _ s_sub (mmap np_abs stft_matrix)
                (mkMatrix 1 (size profile)
                          (fun _ j => (o * elem profile j)%S)))
      as (sub & -> & Hsr & Hsc & Hsub); [reflexivity | exact Hsize |].
    cbn in Hsr, Hsc.
    destruct (@broadcast_same_shape _ _ _ np_maximum sub
                (mmap (fun m => (f * m)%S) (mmap np_abs stft_matrix)))
      as (clean & -> & Hcr & Hcc & Hclean);
      [cbn; congruence | cbn; congruence |].
    cbn in Hcr, Hcc.
    unfold STFTUtils.combine_magnitude_phase.
    destruct (@broadcast_same_shape _ _ _ np_scale clean
                (mmap np_exp_1j (mmap np_angle stft_matrix)))
      as (out & -> & Hor & Hoc & Hout);
      [cbn; congruence | cbn; congruence |].
    exists out. split; [reflexivity|]. intros i j Hi Hj.
    rewrite Hout by congruence. cbn [mmap item].
    rewrite Hclean by congruence. rewrite Hsub by (cbn; assumption).
    reflexivity.
  - intros profile H1 H2 H3.
    unfold STFTUtils.spectral_subtraction, STFTUtils.get_magnitude_phase.
    cbn [as_matrix nd_map size elem]. unfold broadcast at 1.
    cbn [rows cols mmap].
    rewrite (@broadcast_dim_mismatch (cols stft_matrix) (size profile))
      by auto.
    destruct (broadcast_dim (rows stft_matrix) 1); reflexivity.
  - intros noise H1 H2 H3.
    unfold STFTUtils.spectral_subtraction, STFTUtils.get_magnitude_phase.
    cbn [as_matrix nd_map]. unfold broadcast at 1. cbn [rows cols mmap].
    rewrite (@broadcast_dim_mismatch (rows stft_matrix) (rows noise))
      by auto.
    reflexivity.
Qed.
End SpectralMore.

Lemma RealAxis_reconstruct (z : Qc) :
  RealAxis.scale (RealAxis.abs z) (RealAxis.exp_1j (RealAxis.angle z)) = z.
Proof.
  unfold RealAxis.scale, RealAxis.abs, RealAxis.exp_1j, RealAxis.angle.
  destruct (Qc_ltb z 0); cbn; ring.
Qed.

Lemma magnitude_phase_round_trip_witness :
  exists out,
    STFTUtils.combine_magnitude_phase
      (L := RealAxis.library)
      (fst (STFTUtils.get_magnitude_phase
              (L := RealAxis.library)
              (of_rows (RealAxis.z 0) [[RealAxis.z 3; RealAxis.z (-4)]])))
      (snd (STFTUtils.get_magnitude_phase
              (L := RealAxis.library)
              (of_rows (RealAxis.z 0) [[RealAxis.z 3; RealAxis.z (-4)]])))
    = Some out
    /\ item out 0 1 = RealAxis.z (-4).
Proof.
  destruct (@magnitude_phase_round_trip Qc RealAxis.library
              (of_rows (RealAxis.z 0) [[RealAxis.z 3; RealAxis.z (-4)]])
              RealAxis_reconstruct)
    as (out & Hrun & _ & _ & Hout).
  exists out. split; [exact Hrun|].
  rewrite Hout; [reflexivity | cbn; lia | cbn; lia].
Defined.

Lemma spectral_subtraction_attenuates_witness :
  exists out,
    STFTUtils.spectral_subtraction
      (L := RealAxis.library)
      (of_rows (RealAxis.z 0) [[RealAxis.z 3; RealAxis.z (-4)]])
      (Arr2 (of_rows (RealAxis.z 0) [[RealAxis.z 1]]))
      (RealAxis.q 3 2) (RealAxis.q 1 100) = Some out
    /\ (RealAxis.abs (item out 0 1) <= RealAxis.abs (RealAxis.z (-4)))%Qc.
Proof.
  destruct (@spectral_subtraction_attenuates Qc RealAxis.library
              (of_rows (RealAxis.z 0) [[RealAxis.z 3; RealAxis.z (-4)]])
              (of_rows (RealAxis.z 0) [[RealAxis.z 1]])
              (RealAxis.q 3 2) (RealAxis.q 1 100))
    as (out & Hrun & Hout).
  - reflexivity.
  - reflexivity.
  - discriminate.
  - discriminate.
  - discriminate.
  - intros [|[|i]]; discriminate.
  - exact RealAxis_abs_nonneg.
  - exact RealAxis_polar.
  - exists out. split; [exact Hrun|]. apply (Hout 0%nat 1%nat); cbn; lia.
Defined.

Lemma spectral_subtraction_of_silence_witness :
  exists out,
    STFTUtils.spectral_subtraction
      (L := RealAxis.library)
      (of_rows (RealAxis.z 0) [[RealAxis.z 3; RealAxis.z (-4)]])
      (Arr2 (of_rows (RealAxis.z 0) [[RealAxis.z 0]]))
      (RealAxis.q 3 2) (RealAxis.q 1 100) = Some out
    /\ item out 0 1 = RealAxis.z (-4).
Proof.
  destruct (@spectral_subtraction_of_silence Qc RealAxis.library
              (of_rows (RealAxis.z 0) [[RealAxis.z 3; RealAxis.z (-4)]])
              (of_rows (RealAxis.z 0) [[RealAxis.z 0]])
              (RealAxis.q 3 2) (RealAxis.q 1 100))
    as (out & Hrun & _ & _ & Hout).
  - reflexivity.
  - reflexivity.
  - discriminate.
  - intros [|[|i]]; reflexivity.
  - exact RealAxis_abs_nonneg.
  - exact RealAxis_reconstruct.
  - exists out. split; [exact Hrun|].
    rewrite Hout; [reflexivity | cbn; lia | cbn; lia].
Defined.

(** ** More on the Wiener stage *)

Section WienerMore.
Context {C : Type} {L : Library Qc C}.
Local Open Scope Qc_scope.

(** The gain of one bin, from its magnitude and the noise PSD of its row. *)
Let gain (m n : Qc) : Qc :=
  (np_maximum (m * m - n) (of_Z 0) / (n + of_Q (1 # 10000000000)))
  / (np_maximum (m * m - n) (of_Z 0) / (n + of_Q (1 # 10000000000)) + 1).

(** The bins the Wiener stage hands to the inverse transform. *)
Lemma wiener_clean_items (stft_matrix : matrix C) (noise_frames : Z) :
  exists out,
    Denoiser.wiener_clean stft_matrix noise_frames = Some out
    /\ rows out = rows stft_matrix /\ cols out = cols stft_matrix
    /\ forall bin frame,
         (bin < rows stft_matrix)%nat -> (frame < cols stft_matrix)%nat ->
         item out bin frame
         = np_scale
             (np_abs (item stft_matrix bin frame)
              * gain (np_abs (item stft_matrix bin frame))
                     (elem (Denoiser.wiener_noise_psd stft_matrix
                                                      noise_frames) bin))
             (np_exp_1j (np_angle (item stft_matrix bin frame))).
Proof.
  assert (Hsize : size (Denoiser.wiener_noise_psd stft_matrix noise_frames)
                  = rows stft_matrix).
  { unfold Denoiser.wiener_noise_psd.
    destruct (noise_frames <? Z.of_nat (cols stft_matrix))%Z; reflexivity. }
  unfold Denoiser.wiener_clean, STFTUtils.get_magnitude_phase,
    Denoiser.wiener_weights.
  set (psd := Denoiser.wiener_noise_psd stft_matrix noise_frames) in *.
  destruct (@broadcast_column _ _ _ s_sub
              (mmap (fun m => (m * m)%S) (mmap np_abs stft_matrix))
              (newaxis_col psd))
    as (diff & -> & Hdr & Hdc & Hdiff); [exact Hsize | reflexivity |].
  cbn in Hdr, Hdc.
  destruct (@broadcast_column _ _ _ s_div
              (mmap (fun d => np_maximum d (of_Z 0)) diff)
              (mmap (fun n => (n + of_Q (1 # 10000000000))%S)
                    (newaxis_col psd)))
    as (snr & -> & Hsr & Hsc & Hsnr);
    [cbn; congruence | reflexivity |].
  cbn in Hsr, Hsc.
  destruct (@broadcast_same_shape _ _ _ s_div snr
              (mmap (fun s => (s + of_Z 1)%S) snr))
    as (weights & -> & Hwr & Hwc & Hw); [reflexivity | reflexivity |].
  destruct (@broadcast_same_shape _ _ _ s_mul
              (mmap np_abs stft_matrix) weights)
    as (clean & -> & Hcr & Hcc & Hclean);
    [cbn; congruence | cbn; congruence |].
  cbn in Hcr, Hcc.
  unfold STFTUtils.combine_magnitude_phase.
  destruct (@broadcast_same_shape _ _ _ np_scale clean
              (mmap np_exp_1j (mmap np_angle stft_matrix)))
    as (out & -> & Hor & Hoc & Hout);
    [cbn; congruence | cbn; congruence |].
  exists out. split; [reflexivity|].
  split; [congruence|]. split; [congruence|].
  intros bin frame Hbin Hframe.
  rewrite Hout by congruence. cbn [mmap item].
  rewrite Hclean by (cbn; assumption). cbn [mmap item].
  rewrite Hw by congruence. cbn [mmap item].
  rewrite Hsnr by (cbn; congruence). cbn [mmap item newaxis_col].
  rewrite Hdiff by (cbn; assumption). reflexivity.
Qed.

Lemma gain_unit (m n : Qc) : 0 <= n -> 0 <= gain m n /\ gain m n < 1.
Proof.
  intro Hn. apply Qc_ratio_unit. apply Qc_div_nonneg.
  - apply Qc_max_r.
  - apply Qc_plus_pos; [exact Hn | reflexivity].
Qed.

Lemma gain_below_noise (m n : Qc) : m * m <= n -> gain m n = 0.
Proof.
  intro Hle. unfold gain.
  assert (Hmax : np_maximum (m * m - n) (of_Z 0) = 0).
  { cbn. destruct (Qc_ltb (m * m - n) (Q2Qc (inject_Z 0))) eqn:E;
      [reflexivity|].
    apply Qc_ltb_ge in E. apply Qcle_antisym; [|exact E].
    set (p := m * m) in *. clear E. qc2q. lra. }
  rewrite Hmax. unfold Qcdiv. rewrite !Qcmult_0_l. reflexivity.
Qed.

Lemma noise_psd_nonneg (stft_matrix : matrix C) (noise_frames : Z)
      (bin : nat) :
  (0 < noise_frames)%Z -> (0 < cols stft_matrix)%nat ->
  0 <= elem (Denoiser.wiener_noise_psd stft_matrix noise_frames) bin.
Proof.
  intros Hk Hcols.
  destruct (@wiener_noise_psd_elem C L stft_matrix noise_frames bin
              (Z.lt_le_incl _ _ Hk)) as [_ ->].
  apply (mean_of_squares_nonneg
           (fun frame => np_abs (item stft_matrix bin frame))).
  destruct (noise_frames <? Z.of_nat (cols stft_matrix))%Z; lia.
Qed.

(** X17.  The Wiener stage only attenuates, and it silences what does not
    rise above the noise: no output bin has a larger magnitude than the
    input bin, and a bin whose power [magnitude^2] does not exceed the noise
    PSD of its frequency comes out with magnitude 0. *)
Theorem wiener_attenuates (stft_matrix : matrix C) (noise_frames : Z) :
  (0 < noise_frames)%Z ->
  (0 < cols stft_matrix)%nat ->
  (forall z : C, 0 <= np_abs z) ->
  (forall m p : Qc, 0 <= m -> np_abs (np_scale m (np_exp_1j p)) = m) ->
  exists out,
    Denoiser.wiener_clean stft_matrix noise_frames = Some out
    /\ forall bin frame,
         (bin < rows stft_matrix)%nat -> (frame < cols stft_matrix)%nat ->
         np_abs (item out bin frame) <= np_abs (item stft_matrix bin frame)
         /\ (np_abs (item stft_matrix bin frame)
             * np_abs (item stft_matrix bin frame)
             <= elem (Denoiser.wiener_noise_psd stft_matrix noise_frames) bin
             -> np_abs (item out bin frame) = 0).
Proof.
  intros Hk Hcols Habs Hpolar.
  destruct (wiener_clean_items stft_matrix noise_frames)
    as (out & Hrun & _ & _ & Hout).
  exists out. split; [exact Hrun|]. intros bin frame Hbin Hframe.
  rewrite (Hout bin frame Hbin Hframe).
  set (m := np_abs (item stft_matrix bin frame)).
  set (n := elem (Denoiser.wiener_noise_psd stft_matrix noise_frames) bin).
  assert (Hm : 0 <= m) by apply Habs.
  assert (Hn : 0 <= n) by (apply noise_psd_nonneg; assumption).
  destruct (@gain_unit m n Hn) as [Hg0 Hg1].
  rewrite Hpolar by (apply Qc_mult_nonneg; assumption).
  split.
  - apply Qcle_trans with (1 * m).
    + rewrite (Qcmult_comm m (gain m n)).
      apply Qcmult_le_compat_r; [apply Qclt_le_weak; exact Hg1 | exact Hm].
    + rewrite Qcmult_1_l. apply Qcle_refl.
  - intro Hle. rewrite (@gain_below_noise m n Hle). apply Qcmult_0_r.
Qed.

Lemma np_mean_single (x : Qc) : np_mean [x] = x.
Proof.
  unfold np_mean, np_sum. cbn. unfold Qcdiv.
  replace (/ Q2Qc (inject_Z 1)) with (Q2Qc 1)
    by (apply Qc_is_canon; reflexivity).
  rewrite Qcmult_1_r. apply Qcplus_0_l.
Qed.

(** X18.  A signal so short that its spectrum has a single frame is
    silenced entirely by the Wiener stage: the noise PSD is then estimated
    from that very frame, so no bin rises above it. *)
Theorem wiener_single_frame (stft_matrix : matrix C) (noise_frames : Z) :
  (0 < noise_frames)%Z ->
  cols stft_matrix = 1%nat ->
  (forall z : C, 0 <= np_abs z) ->
  (forall m p : Qc, 0 <= m -> np_abs (np_scale m (np_exp_1j p)) = m) ->
  exists out,
    Denoiser.wiener_clean stft_matrix noise_frames = Some out
    /\ cols out = 1%nat
    /\ forall bin, (bin < rows stft_matrix)%nat ->
                   np_abs (item out bin 0%nat) = 0.
Proof.
  intros Hk Hcols Habs Hpolar.
  destruct (wiener_clean_items stft_matrix noise_frames)
    as (out & Hrun & _ & Hc & Hout).
  exists out. split; [exact Hrun|]. split; [congruence|].
  intros bin Hbin. rewrite (Hout bin 0%nat Hbin) by lia.
  assert (Hpsd : elem (Denoiser.wiener_noise_psd stft_matrix noise_frames)
                      bin
                 = np_abs (item stft_matrix bin 0%nat)
                   * np_abs (item stft_matrix bin 0%nat)).
  { destruct (@wiener_noise_psd_elem C L stft_matrix noise_frames bin
                (Z.lt_le_incl _ _ Hk)) as [_ ->].
    rewrite Hcols.
    destruct (Z.ltb_spec noise_frames (Z.of_nat 1)); [lia|].
    cbn [seq map]. apply np_mean_single. }
  rewrite Hpsd, gain_below_noise by apply Qcle_refl.
  rewrite Qcmult_0_r. apply Hpolar. apply Qcle_refl.
Qed.
End WienerMore.

Lemma wiener_attenuates_witness :
  exists out,
    Denoiser.wiener_clean
      (L := RealAxis.library)
      (of_rows (RealAxis.z 0) [[RealAxis.z 0; RealAxis.z 3];
                               [RealAxis.z 1; RealAxis.z (-1)]]) 1
    = Some out
    /\ (RealAxis.abs (item out 0 1) <= RealAxis.abs (RealAxis.z 3))%Qc.
Proof.
  destruct (@wiener_attenuates Qc RealAxis.library
              (of_rows (RealAxis.z 0) [[RealAxis.z 0; RealAxis.z 3];
                                       [RealAxis.z 1; RealAxis.z (-1)]]) 1)
    as (out & Hrun & Hout).
  - reflexivity.
  - cbn. lia.
  - exact RealAxis_abs_nonneg.
  - exact RealAxis_polar.
  - exists out. split; [exact Hrun|].
    apply (Hout 0%nat 1%nat); cbn; lia.
Defined.

Lemma wiener_single_frame_witness :
  exists out,
    Denoiser.wiener_clean
      (L := RealAxis.library)
      (of_rows (RealAxis.z 0) [[RealAxis.z 5]; [RealAxis.z (-2)]]) 15
    = Some out
    /\ RealAxis.abs (item out 1 0) = RealAxis.z 0.
Proof.
  destruct (@wiener_single_frame Qc RealAxis.library
              (of_rows (RealAxis.z 0) [[RealAxis.z 5]; [RealAxis.z (-2)]]) 15)
    as (out & Hrun & _ & Hout).
  - reflexivity.
  - reflexivity.
  - exact RealAxis_abs_nonneg.
  - exact RealAxis_polar.
  - exists out. split; [exact Hrun|]. apply (Hout 1%nat). cbn. lia.
Defined.

(** ** Down-mixing ([AudioIO.convert_to_mono]) *)

Section Mono.
Context {A : Type} {S : Scalar A}.

(** X19.  [convert_to_mono] leaves a 1-D array alone; of a 2-D array it
    always averages along the longer axis (along the columns when the two
    extents are equal), so the result is 1-D with as many entries as the
    shorter extent: for two channels of more than two samples, in either
    layout, it returns two numbers, the mean of each channel. *)
Theorem convert_to_mono_shape (audio : ndarray A) :
  ndim (AudioIO.convert_to_mono audio) = 1%nat
  /\ match audio with
     | Arr1 _ => AudioIO.convert_to_mono audio = audio
     | Arr2 m =>
         exists v,
           AudioIO.convert_to_mono audio = Arr1 v
           /\ size v = Nat.min (rows m) (cols m)
           /\ ((cols m < rows m)%nat ->
               forall j, elem v j
                         = np_mean (map (fun i => item m i j)
                                        (seq 0 (rows m))))
           /\ ((rows m <= cols m)%nat ->
               forall i, elem v i
                         = np_mean (map (fun j => item m i j)
                                        (seq 0 (cols m))))
     end.
Proof.
  destruct audio as [v | m]; [split; reflexivity|].
  unfold AudioIO.convert_to_mono.
  destruct (Nat.ltb_spec (cols m) (rows m)) as [Hlt | Hge].
  - split; [reflexivity|]. eexists. split; [reflexivity|].
    split; [cbn; lia|]. split; [intros _ j; reflexivity | lia].
  - split; [reflexivity|]. eexists. split; [reflexivity|].
    split; [cbn; lia|]. split; [lia | intros _ i; reflexivity].
Qed.
End Mono.

(** ** The API helper ([Dependencies.process_audio_file]) *)

Section ProcessFile.
Context {A C : Type} {S : Scalar A} {L : Library A C}.

Lemma denoise_sample_rate
      (self : Denoiser.denoiser) (audio : Denoiser.audio_input)
      (sr : option Z) (method : option string) (kw : Denoiser.kwargs)
      (result : Denoiser.denoise_result) :
  outcome (Denoiser.denoise self audio sr method kw) = inr result ->
  Denoiser.sample_rate result = Denoiser.target_sr self.
Proof.
  unfold Denoiser.denoise. intro H.
  apply outcome_bind_inr in H. destruct H as ([audio_data orig_sr] & Hin & H).
  apply prepare_input_rate in Hin. subst orig_sr.
  apply outcome_bind_inr in H. destruct H as (denoised & _ & H).
  apply outcome_bind_inr in H. destruct H as (trimmed & _ & H).
  apply outcome_bind_inr in H. destruct H as (u & _ & H).
  cbn in H. inversion H; subst. reflexivity.
Qed.

Lemma wrap_errors_inr {X} (run : M X) (x : X) :
  snd (Dependencies.wrap_errors run) = inr x -> outcome run = inr x.
Proof.
  destruct run as [t [e | y]]; cbn; intro H; inversion H; reflexivity.
Qed.

Lemma wrap_errors_inl {X} (run : M X) (failure : Dependencies.api_error) :
  snd (Dependencies.wrap_errors run) = inl failure ->
  exists cause,
    outcome run = inl cause /\ failure = Dependencies.ProcessingError cause.
Proof.
  destruct run as [t [e | y]]; cbn; intro H; inversion H; eauto.
Qed.

(** X20.  [process_audio_file] honours the rate the caller asks for: its
    result carries that rate when one (other than 0) is given and the
    target rate of the denoiser otherwise; the samples are those of
    [denoise], resampled once more when the two rates differ, while
    [denoised_shape] still records the length before that resampling. *)
Theorem process_audio_file_rate
        (file_path : source) (denoiser : Denoiser.denoiser) (method : string)
        (sample_rate : option Z) (voice_type : string)
        (result : Denoiser.denoise_result) :
  snd (Dependencies.process_audio_file file_path denoiser method sample_rate
                                       voice_type) = inr result ->
  Denoiser.sample_rate result
  = Denoiser.sr_or sample_rate (Denoiser.target_sr denoiser)
  /\ exists kw inner,
       outcome (Denoiser.denoise denoiser (Denoiser.FromSource file_path)
                                 sample_rate (Some method) kw) = inr inner
       /\ Denoiser.denoised_shape result
          = List.length (Denoiser.audio inner)
       /\ Denoiser.method result = Denoiser.method inner
       /\ (Denoiser.sample_rate result = Denoiser.target_sr denoiser ->
           Denoiser.audio result = Denoiser.audio inner)
       /\ (Denoiser.sample_rate result <> Denoiser.target_sr denoiser ->
           librosa_resample (Denoiser.audio inner)
                            (Denoiser.target_sr denoiser)
                            (Denoiser.sample_rate result)
           = inr (Denoiser.audio result)).
Proof.
  unfold Dependencies.process_audio_file. intro H.
  apply wrap_errors_inr in H.
  apply outcome_bind_inr in H. destruct H as (inner & Hinner & H).
  pose proof (denoise_sample_rate _ _ _ _ _ Hinner) as Hrate.
  assert (Hshape : Denoiser.denoised_shape inner
                   = List.length (Denoiser.audio inner)).
  { unfold Denoiser.denoise in Hinner.
    apply outcome_bind_inr in Hinner.
    destruct Hinner as ([audio_data orig_sr] & _ & Hinner).
    apply outcome_bind_inr in Hinner. destruct Hinner as (d & _ & Hinner).
    apply outcome_bind_inr in Hinner. destruct Hinner as (t & _ & Hinner).
    apply outcome_bind_inr in Hinner. destruct Hinner as (u & _ & Hinner).
    cbn in Hinner. inversion Hinner; subst. reflexivity. }
  assert (Hsame : outcome (@ret A C L _ inner) = inr result ->
            Denoiser.sr_or sample_rate (Denoiser.target_sr denoiser)
            = Denoiser.target_sr denoiser ->
            Denoiser.sample_rate result
            = Denoiser.sr_or sample_rate (Denoiser.target_sr denoiser)
            /\ exists kw inner0,
                 outcome (Denoiser.denoise
                            denoiser (Denoiser.FromSource file_path)
                            sample_rate (Some method) kw) = inr inner0
                 /\ Denoiser.denoised_shape result
                    = List.length (Denoiser.audio inner0)
                 /\ Denoiser.method result = Denoiser.method inner0
                 /\ (Denoiser.sample_rate result
                     = Denoiser.target_sr denoiser ->
                     Denoiser.audio result = Denoiser.audio inner0)
                 /\ (Denoiser.sample_rate result
                     <> Denoiser.target_sr denoiser ->
                     librosa_resample (Denoiser.audio inner0)
                                      (Denoiser.target_sr denoiser)
                                      (Denoiser.sample_rate result)
                     = inr (Denoiser.audio result))).
  { intros Hret Hsr. cbn in Hret. inversion Hret; subst result.
    split; [congruence|]. eexists. exists inner.
    split; [exact Hinner|]. split; [exact Hshape|]. split; [reflexivity|].
    split; [reflexivity | congruence]. }
  destruct sample_rate as [rate |]; [|exact (Hsame H eq_refl)].
  unfold Denoiser.sr_or in *.
  destruct (Z.eqb_spec rate 0) as [-> | Hnz]; cbn [negb andb] in H;
    [exact (Hsame H eq_refl)|].
  rewrite Hrate in H.
  destruct (Z.eqb_spec rate (Denoiser.target_sr denoiser)) as [E | Hne];
    cbn [negb] in H; [exact (Hsame H (eq_sym (eq_sym E)))|].
  apply outcome_bind_inr in H. destruct H as (resampled & Hres & H).
  cbn in H. inversion H; subst result. cbn.
  split; [reflexivity|]. eexists. exists inner.
  split; [exact Hinner|]. split; [exact Hshape|]. split; [reflexivity|].
  split; [congruence|]. intros _.
  unfold AudioIO.resample_audio in Hres.
  destruct (Z.eqb_spec (Denoiser.target_sr denoiser) rate) as [E | _];
    [congruence|].
  exact (extern_inr _ _ Hres).
Qed.

(** X21.  [process_audio_file] never lets an engine exception through as it
    is: a run ends with a result or with [ProcessingError] around the
    exception [denoise] or the final resampling raised; and the voice type
    reaches the engine only for the method ["bandpass"]. *)
Theorem process_audio_file_errors
        (file_path : source) (denoiser : Denoiser.denoiser) (method : string)
        (sample_rate : option Z) (voice_type : string) :
  (forall failure,
      snd (Dependencies.process_audio_file file_path denoiser method
                                           sample_rate voice_type)
      = inl failure ->
      exists cause,
        failure = Dependencies.ProcessingError cause
        /\ ((exists kw,
               outcome (Denoiser.denoise
                          denoiser (Denoiser.FromSource file_path)
                          sample_rate (Some method) kw) = inl cause)
            \/ stage_error cause))
  /\ (method <> "bandpass" ->
      forall other : string,
        Dependencies.process_audio_file file_path denoiser method
                                        sample_rate voice_type
        = Dependencies.process_audio_file file_path denoiser method
                                          sample_rate other).
Proof.
  split.
  - unfold Dependencies.process_audio_file.
    intros failure H. apply wrap_errors_inl in H.
    destruct H as (cause & Hrun & ->). exists cause.
    split; [reflexivity|].
    apply outcome_bind_inl in Hrun.
    destruct Hrun as [Hd | (inner & _ & Hrest)]; [left; eauto|].
    right. destruct sample_rate as [rate |]; [|discriminate].
    destruct (negb (rate =? 0) && negb (rate =? Denoiser.sample_rate inner));
      [|discriminate].
    apply outcome_bind_inl in Hrest.
    destruct Hrest as [Hres | (x & _ & Hret)]; [|discriminate].
    unfold AudioIO.resample_audio in Hres.
    destruct (_ =? _); [discriminate | exact (extern_errors _ _ Hres)].
  - intros Hm other. unfold Dependencies.process_audio_file.
    apply String.eqb_neq in Hm. rewrite Hm. reflexivity.
Qed.
End ProcessFile.

Lemma process_audio_file_rate_witness :
  match snd (Dependencies.process_audio_file
               (L := RealAxis.library)
               (RealAxis.File ".wav" true
                  [RealAxis.z 1; RealAxis.z (-1); RealAxis.z 1])
               RealAxis.self "wiener" (Some 8000) "male") with
  | inr result => Denoiser.sample_rate result = 8000
  | inl _ => False
  end.
Proof.
  destruct (snd (Dependencies.process_audio_file
                   (L := RealAxis.library)
                   (RealAxis.File ".wav" true
                  [RealAxis.z 1; RealAxis.z (-1); RealAxis.z 1])
                   RealAxis.self "wiener" (Some 8000) "male"))
    as [e | result] eqn:E.
  - vm_compute in E. discriminate.
  - exact (proj1 (process_audio_file_rate _ _ _ _ _ E)).
Defined.

(** ** Noise excerpts: how many samples and frames count as noise *)

Section NoiseExcerpt.
Context {C : Type} {L : Library Qc C}.

Lemma trunc_Qeq (p q : Q) :
  (p == q)%Q ->
  Z.quot (Qnum p) (Zpos (Qden p)) = Z.quot (Qnum q) (Zpos (Qden q)).
Proof.
  destruct p as [pn pd], q as [qn qd]. unfold Qeq. cbn [Qnum Qden]. intro H.
  rewrite <- (Z.quot_mul_cancel_r pn (Zpos pd) (Zpos qd)) by lia.
  rewrite <- (Z.quot_mul_cancel_r qn (Zpos qd) (Zpos pd)) by lia.
  rewrite H. f_equal. lia.
Qed.

Lemma Qc_trunc_of (x : Qc) (q : Q) :
  (this x == q)%Q -> Qc_trunc x = Z.quot (Qnum q) (Zpos (Qden q)).
Proof. intro H. unfold Qc_trunc. exact (trunc_Qeq H). Qed.

Lemma half_rate (sr : Z) :
  py_int (A := Qc) (of_Q (1 # 2) * of_Z sr)%S = Z.quot sr 2.
Proof.
  change (Qc_trunc (Q2Qc (1 # 2) * Q2Qc (inject_Z sr))%Qc = Z.quot sr 2).
  rewrite (@Qc_trunc_of _ ((1 # 2) * inject_Z sr)%Q).
  - cbn [Qnum Qden Qmult inject_Z]. f_equal. lia.
  - unfold Qcmult, Q2Qc. cbn [this]. rewrite !Qred_correct. reflexivity.
Qed.

Lemma half_rate_frames (sr hop : Z) :
  hop <> 0 ->
  py_int (A := Qc) ((of_Q (1 # 2) * of_Z sr) / of_Z hop)%S
  = Z.quot sr (2 * hop).
Proof.
  intro Hhop.
  change (Qc_trunc ((Q2Qc (1 # 2) * Q2Qc (inject_Z sr))
                    / Q2Qc (inject_Z hop))%Qc
          = Z.quot sr (2 * hop)).
  rewrite (@Qc_trunc_of _ (((1 # 2) * inject_Z sr) / inject_Z hop)%Q).
  - destruct hop as [| p | p]; [congruence | |];
      unfold Qdiv, Qinv, inject_Z; cbn [Qnum Qden Qmult].
    + f_equal; lia.
    + change (Z.neg p) with (- Z.pos p).
      replace (1 * sr * -1) with (- sr) by lia.
      replace (2 * - Z.pos p) with (- (Z.pos (2 * 1 * p))) by lia.
      rewrite Z.quot_opp_l, Z.quot_opp_r by lia. reflexivity.
  - unfold Qcdiv, Qcinv, Qcmult, Q2Qc. cbn [this].
    rewrite !Qred_correct. reflexivity.
Qed.

(** X22.  For a sample rate that is not negative, [_noisereduce_filter]
    takes as noise the first [sr // 2] samples, half a second, of the audio
    it is given (all of it when it is shorter, none when the rate is 0 or
    1), and does nothing else than the one call of the noise-reduction
    library on the audio and that excerpt. *)
Theorem noisereduce_noise_clip
        (self : Denoiser.denoiser) (audio : list Qc) (sr : Z)
        (stationary : bool) (prop_decrease : Qc) (n_fft hop_length : Z) :
  0 <= sr ->
  let noise_clip := firstn (Z.to_nat (sr / 2)) audio in
  Denoiser._noisereduce_filter self audio sr stationary prop_decrease
                               n_fft hop_length
  = extern (CallReduceNoise sr stationary prop_decrease n_fft hop_length)
           (nr_reduce_noise audio sr noise_clip stationary prop_decrease
                            n_fft hop_length)
  /\ List.length noise_clip = Nat.min (Z.to_nat (sr / 2)) (List.length audio)
  /\ (sr < 2 -> noise_clip = [])
  /\ (Z.of_nat (List.length audio) <= sr / 2 -> noise_clip = audio).
Proof.
  intros Hsr noise_clip.
  assert (Hhalf : 0 <= sr / 2) by (apply Z.div_pos; lia).
  split; [|split; [|split]].
  - unfold Denoiser._noisereduce_filter. rewrite half_rate.
    rewrite Z.quot_div_nonneg by lia.
    unfold py_slice_to, slice_stop.
    destruct (Z.ltb_spec (sr / 2) 0) as [Hneg | _]; [lia|].
    subst noise_clip. f_equal. f_equal.
    destruct (Nat.le_ge_cases (Z.to_nat (sr / 2)) (List.length audio))
      as [Hle | Hge].
    + rewrite Nat.min_l by exact Hle. reflexivity.
    + rewrite Nat.min_r by exact Hge.
      rewrite !firstn_all2; [reflexivity | exact Hge | apply Nat.le_refl].
  - subst noise_clip. apply length_firstn.
  - intro Hlow. subst noise_clip.
    rewrite Z.div_small by lia. reflexivity.
  - intro Hshort. subst noise_clip. apply firstn_all2. lia.
Qed.

(** X23.  [_wiener_filter] hands its noise estimate the frame count
    [int(0.5 * sr / hop_length)], which is the quotient of [sr] by
    [2 * hop_length] truncated toward zero; with a positive hop length and a
    rate that is not negative, that is at least one frame exactly when the
    rate is at least twice the hop length.  With a hop length of 0 the
    filter never returns: nothing but the STFT is called, and the run ends
    with the error of that call or, should it answer, with
    ZeroDivisionError. *)
Theorem wiener_noise_frames
        (self : Denoiser.denoiser) (audio : list Qc) (sr : Z)
        (n_fft hop_length : Z) (smoothing : Qc) :
  (hop_length <> 0 ->
   Denoiser._wiener_filter self audio sr n_fft hop_length smoothing
   = (stft_matrix <- STFTUtils.stft audio n_fft hop_length ;;
      stft_clean <- numpy (Denoiser.wiener_clean
                             stft_matrix (Z.quot sr (2 * hop_length))) ;;
      STFTUtils.istft stft_clean hop_length (Some (List.length audio))))
  /\ (0 < hop_length -> 0 <= sr ->
      (0 < Z.quot sr (2 * hop_length) <-> 2 * hop_length <= sr))
  /\ (hop_length = 0 ->
      trace (Denoiser._wiener_filter self audio sr n_fft hop_length
                                     smoothing)
      = [CallStft n_fft 0]
      /\ exists e,
           outcome (Denoiser._wiener_filter self audio sr n_fft hop_length
                                            smoothing) = inl e
           /\ (e = ZeroDivisionError
               \/ exists cause,
                    librosa_stft audio n_fft 0 STFTUtils.DEFAULT_WINDOW true
                    = inl cause
                    /\ e = LibraryError cause)).
Proof.
  split; [|split].
  - intro Hhop. unfold Denoiser._wiener_filter.
    destruct (Z.eqb_spec hop_length 0) as [E | _]; [congruence|].
    rewrite (half_rate_frames sr Hhop). reflexivity.
  - intros Hhop Hsr. rewrite Z.quot_div_nonneg by lia. split.
    + intro Hpos.
      destruct (Z.le_gt_cases (2 * hop_length) sr) as [Hle | Hlt];
        [exact Hle|].
      rewrite Z.div_small in Hpos by lia. lia.
    + intro Hle. apply Z.div_str_pos. lia.
  - intros ->. unfold Denoiser._wiener_filter, STFTUtils.stft, extern.
    destruct (librosa_stft audio n_fft 0 STFTUtils.DEFAULT_WINDOW true)
      as [cause | stft_matrix]; cbn.
    + split; [reflexivity|]. eexists. split; [reflexivity|].
      right. exists cause. split; reflexivity.
    + split; [reflexivity|]. eexists. split; [reflexivity|].
      left. reflexivity.
Qed.
End NoiseExcerpt.

Lemma noisereduce_noise_clip_witness :
  List.length (firstn (Z.to_nat (16000 / 2))
                      [RealAxis.z 1; RealAxis.z (-1); RealAxis.z 1])
  = Nat.min (Z.to_nat (16000 / 2)) 3.
Proof.
  refine (proj1 (proj2 (@noisereduce_noise_clip
                          Qc RealAxis.library RealAxis.self
                          [RealAxis.z 1; RealAxis.z (-1); RealAxis.z 1]
                          16000 false (RealAxis.q 9 10) 2048 512 _))).
  lia.
Defined.

(** ** The adaptive method at low sample rates *)

Section AdaptiveErrors.
Context {A C : Type} {S : Scalar A} {L : Library A C}.

(** An exception of the adaptive method is the one its band-pass pre-filter
    raised, or an error of a later stage. *)
Lemma adaptive_error_origin (self : Denoiser.denoiser) (audio : list A)
      (sr : Z) (initial_method fallback_method : string) (e : exn) :
  outcome (Denoiser._adaptive_denoise self audio sr initial_method
                                      fallback_method) = inl e ->
  outcome (Denoiser._bandpass_filter self audio sr None None 5 "broadband")
  = inl e
  \/ stage_error e.
Proof.
  unfold Denoiser._adaptive_denoise. intro H.
  apply outcome_bind_inl in H. destruct H as [H | (s1 & _ & H)];
    [left; exact H|].
  right.
  apply outcome_bind_inl in H. destruct H as [H | (r & _ & H)];
    [exact (estimate_noise_level_errors _ _ H)|].
  apply outcome_bind_inl in H. destruct H as [H | (u & _ & H)];
    [destruct (Denoiser.verbose self); discriminate|].
  destruct (r <? of_Q (5 # 100))%S; [discriminate|].
  destruct (r <? of_Q (15 # 100))%S.
  - apply outcome_bind_inl in H. destruct H as [H | (s2 & _ & H)];
      [exact (spectral_subtraction_errors _ _ _ _ _ _ _ _ H) | discriminate].
  - apply outcome_bind_inl in H. destruct H as [H | (s2 & _ & H)];
      [exact (spectral_subtraction_errors _ _ _ _ _ _ _ _ H)|].
    apply outcome_bind_inl in H. destruct H as [H | (s3 & _ & H)];
      [exact (noisereduce_errors _ _ _ _ _ _ _ H) | discriminate].
Qed.
End AdaptiveErrors.

Section AdaptiveRates.
Context {C : Type} {L : Library Qc C}.

(** X24.  The adaptive method rejects the band exactly at the sample rates
    of 102 Hz and below: there it raises [InvalidBand] before anything is
    called or printed, whatever the audio; above, it never raises
    [InvalidBand], so a failure can only come from inside a stage. *)
Theorem adaptive_invalid_rate
        (self : Denoiser.denoiser) (audio : list Qc) (sr : Z)
        (initial_method fallback_method : string) :
  ((sr <= 102)%Z ->
   exists l h,
     Denoiser._adaptive_denoise self audio sr initial_method fallback_method
     = ([], inl (InvalidBand l h)))
  /\ ((102 < sr)%Z ->
      forall e,
        outcome (Denoiser._adaptive_denoise self audio sr initial_method
                                            fallback_method) = inl e ->
        stage_error e).
Proof.
  pose proof (effective_band_of_profile sr "broadband") as Hband.
  pose proof (@clamped_band_empty sr 50 12000 eq_refl) as Hempty.
  split.
  - intro Hsr. apply Hempty in Hsr. eexists. eexists.
    unfold Denoiser._adaptive_denoise.
    rewrite (@bandpass_raises C L self audio sr None None 5 "broadband"
               _ _ Hband Hsr).
    reflexivity.
  - intros Hsr e H.
    destruct (adaptive_error_origin _ _ _ _ _ H) as [Hbp | Hstage];
      [|exact Hstage].
    destruct (bandpass_errors _ _ _ _ _ _ _ Hbp) as [Hstage | (l & h & ->)];
      [exact Hstage|].
    exfalso.
    match type of Hempty with
    | (?b <= ?a)%Qc <-> _ =>
        destruct (Qclt_le_dec a b) as [Hlow | Hle]; [|apply Hempty in Hle; lia]
    end.
    exact (@bandpass_never_invalid_past_guard C L self audio sr None None 5
             "broadband" _ _ l h Hband Hlow Hbp).
Qed.
End AdaptiveRates.
